(** * realsense-color-to-h264: the frame pump of [main.cpp]

    The program pulls colour frames from a RealSense pipeline, hands each
    one to a hardware encoder (libhve) and dumps the packets the encoder
    returns into a raw output file.  This development embeds [main_loop],
    [process_user_input] and [main] and proves properties of the sequence
    of calls they make to their collaborators.

    Modelling conventions.
    - [int] is [Z]; the one product the code computes ([seconds * framerate])
      is wrapped to 32 bits.  The loop counter only ever satisfies
      [f < frames], so [++f] cannot leave the [int] range.
    - The camera and the encoder are external libraries.  They are
      deterministic state machines behind the type classes [FrameSource]
      and [Encoder]; an exception thrown by either is outside the model.
    - A pointer to a buffer is the list of bytes it points to.
    - Every call to a collaborator is recorded as an [event]; a run returns
      the events it produced, in order.  Output on [cout] / [cerr] is not
      recorded.
    - [while ((packet = hve_receive_packet(...)))] need not terminate for an
      arbitrary encoder, so the loops take fuel; [None] means that the fuel
      ran out. *)

From Stdlib Require Import ZArith Ascii String List Bool Lia.
From Stdlib.Strings Require Import Byte.
Import ListNotations.
Local Open Scope Z_scope.

Set Implicit Arguments.

(** ** Data *)

Definition bytes := list byte.

(** [struct input_args] *)
Record input_args := {
  width : Z;
  height : Z;
  framerate : Z;
  seconds : Z;
  filename : string
}.

(** The fields of [struct hve_config] that [process_user_input] sets. *)
Record hve_config := {
  cfg_width : Z;
  cfg_height : Z;
  cfg_framerate : Z;
  pixel_format : string
}.

(** What [main_loop] reads from an [rs2::video_frame]. *)
Record video_frame := {
  get_stride_in_bytes : Z;
  get_data : bytes
}.

(** [struct hve_frame]: only plane 0 is ever filled in. *)
Record hve_frame := {
  linesize0 : Z;
  data0 : bytes
}.

(** [AVPacket]: [data] is the buffer, [size] the number of bytes in use. *)
Record AVPacket := {
  data : bytes;
  size : Z
}.

(** The bytes [out_file.write((const char* )packet->data, packet->size)]
    copies. *)
Definition packet_bytes (p : AVPacket) : bytes :=
  firstn (Z.to_nat (size p)) (data p).

(** Two's-complement wrap-around of a 32-bit [int]. *)
Definition wrap32 (z : Z) : Z := (z + 2 ^ 31) mod 2 ^ 32 - 2 ^ 31.

Definition in_int (z : Z) : Prop := - 2 ^ 31 <= z < 2 ^ 31.

(** ** Collaborators *)

(** [rs2::pipeline]: [wait_for_frames] followed by [get_color_frame]. *)
Class FrameSource (Src : Type) := {
  wait_for_frames : Src -> video_frame * Src
}.

(** libhve.  [hve_send_frame he frame] returns its status code;
    [hve_receive_packet he &failed] returns the packet pointer ([None] for
    [NULL]) and the value it stored in [failed]. *)
Class Encoder (Enc : Type) := {
  HVE_OK : Z;
  hve_send_frame : Enc -> option hve_frame -> Z * Enc;
  hve_receive_packet : Enc -> option AVPacket * Z * Enc
}.

(** ** Events *)

Inductive event :=
| Pull (c : video_frame)                        (* realsense.wait_for_frames() *)
| Submit (frame : option hve_frame) (rc : Z)    (* hve_send_frame(he, frame) *)
| Poll (packet : option AVPacket) (failed : Z)  (* hve_receive_packet(he, &failed) *)
| Append (b : bytes).                           (* out_file.write(...) *)

(** Generic projection of a trace. *)
Definition collect {A} (f : event -> option A) (t : list event) : list A :=
  flat_map (fun e => match f e with Some a => [a] | None => [] end) t.

(** Frames pulled from the camera. *)
Definition pulls : list event -> list video_frame :=
  collect (fun e => match e with Pull c => Some c | _ => None end).

(** Frame submissions, with their status. *)
Definition frame_submits : list event -> list (hve_frame * Z) :=
  collect (fun e => match e with Submit (Some fr) rc => Some (fr, rc) | _ => None end).

(** End-of-stream submissions ([hve_send_frame(he, NULL)]). *)
Definition flushes : list event -> list Z :=
  collect (fun e => match e with Submit None rc => Some rc | _ => None end).

(** Packets the encoder handed out. *)
Definition emitted : list event -> list AVPacket :=
  collect (fun e => match e with Poll (Some p) _ => Some p | _ => None end).

(** Chunks written to the output file. *)
Definition writes : list event -> list bytes :=
  collect (fun e => match e with Append b => Some b | _ => None end).

(** ** The pump *)

Section Pump.

Context {Src Enc : Type} `{FrameSource Src} `{Encoder Enc}.

Record world := {
  realsense : Src;
  he : Enc;
  out_file : bytes
}.

(** State, trace and fuel. *)
Definition M (A : Type) : Type := world -> option (A * world * list event).

Definition ret {A} (a : A) : M A := fun w => Some (a, w, []).

Definition bind {A B} (c : M A) (k : A -> M B) : M B :=
  fun w =>
    match c w with
    | None => None
    | Some (a, w1, t1) =>
      match k a w1 with
      | None => None
      | Some (b, w2, t2) => Some (b, w2, t1 ++ t2)
      end
    end.

Definition out_of_fuel {A} : M A := fun _ => None.

Notation "x <- c ;; k" := (bind c (fun x => k))
  (at level 61, c at next level, right associativity).
Notation "c ;; k" := (bind c (fun _ => k))
  (at level 61, right associativity).

Definition pull : M video_frame := fun w =>
  let (c, s) := wait_for_frames (realsense w) in
  Some (c, {| realsense := s; he := he w; out_file := out_file w |}, [Pull c]).

Definition send_frame (frame : option hve_frame) : M Z := fun w =>
  let (rc, e) := hve_send_frame (he w) frame in
  Some (rc, {| realsense := realsense w; he := e; out_file := out_file w |},
        [Submit frame rc]).

Definition receive_packet : M (option AVPacket * Z) := fun w =>
  let '(packet, failed, e) := hve_receive_packet (he w) in
  Some ((packet, failed),
        {| realsense := realsense w; he := e; out_file := out_file w |},
        [Poll packet failed]).

Definition write (b : bytes) : M unit := fun w =>
  Some (tt, {| realsense := realsense w; he := he w; out_file := out_file w ++ b |},
        [Append b]).

(** [for (auto i = 0; i < n; ++i) realsense.wait_for_frames();] *)
Fixpoint warm_up (n : nat) : M unit :=
  match n with
  | O => ret tt
  | S n' => _ <- pull ;; warm_up n'
  end.

(** [while ((packet = hve_receive_packet(he, &failed))) out_file.write(...)];
    the result is the value left in [failed]. *)
Fixpoint drain (fuel : nat) : M Z :=
  match fuel with
  | O => out_of_fuel
  | S n =>
    r <- receive_packet ;;
    match fst r with
    | Some packet => write (packet_bytes packet) ;; drain n
    | None => ret (snd r)
    end
  end.

(** The frame handed to the encoder for a colour frame. *)
Definition frame_of (c : video_frame) : hve_frame :=
  {| linesize0 := get_stride_in_bytes c; data0 := get_data c |}.

(** [for (f = 0; f < frames; ++f) { ... }], started at [f]; the result is
    the value of [f] when the loop is left, by its test or by a [break]. *)
Fixpoint frame_loop (fuel : nat) (frames f : Z) : M Z :=
  match fuel with
  | O => out_of_fuel
  | S n =>
    if f <? frames then
      c_frame <- pull ;;
      rc <- send_frame (Some (frame_of c_frame)) ;;
      if negb (rc =? HVE_OK) then ret f
      else
        failed <- drain n ;;
        if negb (failed =? HVE_OK) then ret f
        else frame_loop n frames (f + 1)
    else ret f
  end.

(** [const int frames = input.seconds * input.framerate;] *)
Definition frames_of (input : input_args) : Z :=
  wrap32 (seconds input * framerate input).

Definition main_loop (fuel : nat) (input : input_args) : M bool :=
  let frames := frames_of input in
  warm_up 10 ;;
  f <- frame_loop fuel frames 0 ;;
  _ <- send_frame None ;;
  _ <- drain fuel ;;
  ret (f =? frames).

End Pump.

Arguments world : clear implicits.
Arguments M : clear implicits.

Notation "x <- c ;; k" := (bind c (fun x => k))
  (at level 61, c at next level, right associativity).
Notation "c ;; k" := (bind c (fun _ => k))
  (at level 61, right associativity).

(** ** The process *)

Section Process.

Context {Src Enc : Type} `{FrameSource Src} `{Encoder Enc}.

(** libc's [atoi]. *)
Variable atoi : string -> Z.
(** Whether [ofstream out_file(name, ofstream::binary)] opens. *)
Variable open_ok : string -> bool.
(** The pipeline [pipe.start(cfg)] yields for a colour stream of the given
    width, height and framerate. *)
Variable pipeline_start : Z -> Z -> Z -> Src.
(** [hve_init]; [None] is [NULL]. *)
Variable hve_init : hve_config -> option Enc.

(** [argv[i]] *)
Definition arg (argv : list string) (i : nat) : string := nth i argv EmptyString.

(** [argc] is the number of entries of [argv].  The result is the return
    value and the two structures behind the pointers. *)
Definition process_user_input (argv : list string)
    (input : input_args) (config : hve_config) : Z * input_args * hve_config :=
  if Z.of_nat (length argv) <? 6 then (-1, input, config)
  else
    let w := atoi (arg argv 1) in
    let h := atoi (arg argv 2) in
    let fr := atoi (arg argv 3) in
    (0,
     {| width := w; height := h; framerate := fr;
        seconds := atoi (arg argv 4); filename := arg argv 5 |},
     {| cfg_width := w; cfg_height := h; cfg_framerate := fr;
        pixel_format := "yuyv422"%string |}).

Definition init_realsense (input : input_args) : Src :=
  pipeline_start (width input) (height input) (framerate input).

(** [= {0}] *)
Definition zero_input : input_args :=
  {| width := 0; height := 0; framerate := 0; seconds := 0; filename := EmptyString |}.
Definition zero_config : hve_config :=
  {| cfg_width := 0; cfg_height := 0; cfg_framerate := 0; pixel_format := EmptyString |}.

(** What [process_user_input] leaves in the two structures, and the state
    in which [main] enters [main_loop]. *)
Definition user_input_of (argv : list string) : input_args :=
  snd (fst (process_user_input argv zero_input zero_config)).
Definition hardware_config_of (argv : list string) : hve_config :=
  snd (process_user_input argv zero_input zero_config).
Definition initial_world (input : input_args) (hardware_encoder : Enc) : world Src Enc :=
  {| realsense := init_realsense input; he := hardware_encoder; out_file := [] |}.

(** [main]: the result is the exit code.  [status] only selects a message
    on [cout]; [hve_close] and [out_file.close()] leave nothing to observe. *)
Definition main (fuel : nat) (argv : list string) : option Z :=
  let '(rc, user_input, hardware_config) :=
    process_user_input argv zero_input zero_config in
  if rc <? 0 then Some 1
  else if negb (open_ok (filename user_input)) then Some 2
  else
    let realsense := init_realsense user_input in
    match hve_init hardware_config with
    | None => Some 3
    | Some hardware_encoder =>
      match main_loop fuel user_input
              {| realsense := realsense; he := hardware_encoder; out_file := [] |} with
      | None => None
      | Some (status, _, _) => Some 0
      end
    end.

End Process.

(** ** Runs and their shape *)

Section Shape.

Context {Src Enc : Type} `{FrameSource Src} `{Encoder Enc}.

(** [main_loop] returns [(b, w', t)] from [w], given enough fuel. *)
Definition main_loop_returns (input : input_args) (w : world Src Enc)
    (b : bool) (w' : world Src Enc) (t : list event) : Prop :=
  exists fuel, main_loop fuel input w = Some (b, w', t).

(** Polling [e] again and again reaches [NULL] after finitely many packets. *)
Inductive quiescent : Enc -> Prop :=
| quiescent_now e failed e' :
    hve_receive_packet e = (None, failed, e') -> quiescent e
| quiescent_later e p failed e' :
    hve_receive_packet e = (Some p, failed, e') -> quiescent e' -> quiescent e.

(** The first [n] frames the camera delivers from state [s]. *)
Fixpoint upcoming (n : nat) (s : Src) : list video_frame :=
  match n with
  | O => []
  | S n' => let (c, s') := wait_for_frames s in c :: upcoming n' s'
  end.

(** The events of a drain that hands out the packets [ps] (each with the
    value of [failed] set alongside), then reports [NULL] with [failed]. *)
Definition drain_events (ps : list (AVPacket * Z)) (failed : Z) : list event :=
  flat_map (fun pf => [Poll (Some (fst pf)) (snd pf); Append (packet_bytes (fst pf))]) ps
  ++ [Poll None failed].

(** One pass through the body of the frame loop, up to the end of its drain. *)
Definition cycle_events (c : video_frame) (ps : list (AVPacket * Z)) (failed : Z)
  : list event :=
  [Pull c; Submit (Some (frame_of c)) HVE_OK] ++ drain_events ps failed.

(** How the frame loop is left. *)
Inductive ending :=
| Completed
| SubmissionFailed (c : video_frame) (rc : Z)
| EncodeFailed (c : video_frame) (ps : list (AVPacket * Z)) (failed : Z).

Definition ending_events (e : ending) : list event :=
  match e with
  | Completed => []
  | SubmissionFailed c rc => [Pull c; Submit (Some (frame_of c)) rc]
  | EncodeFailed c ps failed => cycle_events c ps failed
  end.

Definition ending_ok (frames f : Z) (e : ending) : Prop :=
  match e with
  | Completed => frames <= f
  | SubmissionFailed _ rc => f < frames /\ rc <> HVE_OK
  | EncodeFailed _ _ failed => f < frames /\ failed <> HVE_OK
  end.

(** What the frame loop submitted: one accepted frame per clean cycle, then
    the submission of the cycle that failed, if any. *)
Definition ending_submits (e : ending) : list (hve_frame * Z) :=
  match e with
  | Completed => []
  | SubmissionFailed c rc => [(frame_of c, rc)]
  | EncodeFailed c _ _ => [(frame_of c, HVE_OK)]
  end.

(** The events of the frame loop: clean cycles, then the ending. *)
Definition loop_events (cycles : list (video_frame * list (AVPacket * Z)))
    (e : ending) : list event :=
  flat_map (fun c => cycle_events (fst c) (snd c) HVE_OK) cycles ++ ending_events e.

(** A submission or encode failure seen by the frame loop. *)
Definition is_failure (e : event) : bool :=
  match e with
  | Submit (Some _) rc => negb (rc =? HVE_OK)
  | Poll None failed => negb (failed =? HVE_OK)
  | _ => false
  end.

(** The shape of every run of [main_loop] with target [frames] from a
    camera in state [s]: ten warm-up pulls, the frame loop, the flush. *)
Inductive run_shape (s : Src) (frames : Z) : list event -> bool -> Prop :=
| RunShape cycles stop rc ps failed :
    Z.of_nat (length cycles) <= Z.max 0 frames ->
    ending_ok frames (Z.of_nat (length cycles)) stop ->
    run_shape s frames
      (map Pull (upcoming 10 s) ++ loop_events cycles stop
       ++ [Submit None rc] ++ drain_events ps failed)
      (Z.of_nat (length cycles) =? frames).

(** Polling [e] hands out exactly the packets [ps], then [NULL] with
    [failed], and leaves the encoder in [e']. *)
Inductive yields : Enc -> list (AVPacket * Z) -> Z -> Enc -> Prop :=
| yields_none e failed e' :
    hve_receive_packet e = (None, failed, e') -> yields e [] failed e'
| yields_some e p fl e1 ps failed e' :
    hve_receive_packet e = (Some p, fl, e1) -> yields e1 ps failed e' ->
    yields e ((p, fl) :: ps) failed e'.

(** The bytes of the packets [ps], in order. *)
Definition bytes_of (ps : list (AVPacket * Z)) : bytes :=
  concat (map (fun pf => packet_bytes (fst pf)) ps).

(** Right after every accepted frame submission comes a complete drain:
    polls, each packet written as soon as it is handed out, up to and
    including a [NULL] poll. *)
Definition drained_after_submit (t : list event) : Prop :=
  forall pre fr rest,
    t = pre ++ Submit (Some fr) HVE_OK :: rest ->
    exists ps failed rest', rest = drain_events ps failed ++ rest'.

(** Every frame submitted is the frame of the pull just before it. *)
Definition submits_follow_pulls (t : list event) : Prop :=
  forall pre fr rc post,
    t = pre ++ Submit (Some fr) rc :: post ->
    exists pre' c, pre = pre' ++ [Pull c] /\ fr = frame_of c.

(** "If the [k]-th frame submission fails ([k <= N]), no more than [k]
    submissions are attempted, strictly fewer than [N]"; [k] counts from 1
    and is [S i] here. *)
Definition stops_strictly_early (input : input_args) (w : world Src Enc) : Prop :=
  forall b w' t i fr rc,
    main_loop_returns input w b w' t ->
    nth_error (frame_submits t) i = Some (fr, rc) -> rc <> HVE_OK ->
    Z.of_nat (S i) <= frames_of input ->
    (length (frame_submits t) <= S i)%nat /\
    Z.of_nat (length (frame_submits t)) < frames_of input.

(** "The number of frame-submit cycles of a run without failure is
    [seconds * framerate], multiplied exactly." *)
Definition cycles_are_exact_product (input : input_args) (w : world Src Enc) : Prop :=
  forall w' t,
    main_loop_returns input w true w' t ->
    Z.of_nat (length (frame_submits t)) = seconds input * framerate input.

(** [c'] returns whatever [c] returns. *)
Definition extends A (c c' : M Src Enc A) : Prop :=
  forall w r, c w = Some r -> c' w = Some r.

(** The output file grows by exactly what the trace says was written. *)
Definition accounted A (c : M Src Enc A) : Prop :=
  forall w a w' t, c w = Some (a, w', t) ->
    out_file w' = out_file w ++ concat (writes t).

End Shape.

(** ** Conduct of a run *)

Section Conduct.

Context {Src Enc : Type} `{FrameSource Src} `{Encoder Enc}.

(** The camera after [n] pulls. *)
Fixpoint advance (n : nat) (s : Src) : Src :=
  match n with
  | O => s
  | S n' => advance n' (snd (wait_for_frames s))
  end.

(** The frames pulled are the next frames of the camera, and the camera is
    left right after them. *)
Definition camera_tracked A (c : M Src Enc A) : Prop :=
  forall w a w' t, c w = Some (a, w', t) ->
    pulls t = upcoming (length (pulls t)) (realsense w) /\
    realsense w' = advance (length (pulls t)) (realsense w).

(** A [NULL] poll of the frame loop that reports a failure is the last
    event of the loop: the flush [flush] follows at once, and [outcome]
    holds of the run. *)
Definition stops_at_encode_failure (outcome : Prop) (flush t : list event) : Prop :=
  forall pre failed post,
    t = pre ++ Poll None failed :: post ->
    failed <> HVE_OK -> flushes pre = [] ->
    post = flush /\ outcome.

(** Every packet handed out is written before anything else happens. *)
Definition written_at_once (t : list event) : Prop :=
  forall pre p failed post,
    t = pre ++ Poll (Some p) failed :: post ->
    exists post', post = Append (packet_bytes p) :: post'.

(** An encoder that accepts every frame and never reports an encode
    failure. *)
Definition healthy : Prop :=
  (forall e frame, fst (hve_send_frame e (Some frame)) = HVE_OK) /\
  (forall e failed e', hve_receive_packet e = (None, failed, e') -> failed = HVE_OK).

End Conduct.

(** ** Test doubles *)

Module Doubles.

(** A camera that numbers its frames: frame [n] carries [n] payload bytes. *)
Definition test_frame (n : nat) : video_frame :=
  {| get_stride_in_bytes := 1280; get_data := repeat "x"%byte n |}.

#[export] Instance camera : FrameSource nat :=
  {| wait_for_frames := fun n => (test_frame n, S n) |}.

(** A scripted encoder.  [on_frame k] is the status of the [k]-th frame
    submission (from 1) and the packets it makes ready; [on_flush] the same
    for the end-of-stream submission; [on_empty k flushed] is the value
    stored in [failed] when nothing is ready. *)
Record script := {
  on_frame : nat -> Z * list AVPacket;
  on_flush : Z * list AVPacket;
  on_empty : nat -> bool -> Z
}.

Record fake := {
  behaviour : script;
  sent : nat;
  flushed : bool;
  ready : list AVPacket
}.

Definition fake_send (e : fake) (frame : option hve_frame) : Z * fake :=
  match frame with
  | Some _ =>
    let k := S (sent e) in
    let (rc, ps) := on_frame (behaviour e) k in
    (rc, {| behaviour := behaviour e; sent := k; flushed := flushed e;
            ready := ready e ++ ps |})
  | None =>
    let (rc, ps) := on_flush (behaviour e) in
    (rc, {| behaviour := behaviour e; sent := sent e; flushed := true;
            ready := ready e ++ ps |})
  end.

Definition fake_receive (e : fake) : option AVPacket * Z * fake :=
  match ready e with
  | p :: ps =>
    (Some p, 0,
     {| behaviour := behaviour e; sent := sent e; flushed := flushed e; ready := ps |})
  | [] => (None, on_empty (behaviour e) (sent e) (flushed e), e)
  end.

(** libhve's codes: [HVE_OK = 0], [HVE_ERROR = -1]. *)
#[export] Instance fake_encoder : Encoder fake :=
  {| HVE_OK := 0; hve_send_frame := fake_send; hve_receive_packet := fake_receive |}.

Definition tag (n : nat) : byte :=
  match Byte.of_nat n with Some b => b | None => "000"%byte end.

(** Packet [i] of submission [k]: two bytes in use in a three-byte buffer. *)
Definition pkt (k i : nat) : AVPacket :=
  {| data := [tag k; tag i; "255"%byte]; size := 2 |}.

(** Exactly three packets per submission. *)
Definition three_per_frame : script :=
  {| on_frame := fun k => (0, [pkt k 1; pkt k 2; pkt k 3]);
     on_flush := (0, []);
     on_empty := fun _ _ => 0 |}.

(** The [j]-th submission is rejected; every other one yields a packet. *)
Definition rejects (j : nat) : script :=
  {| on_frame := fun k => if Nat.eqb k j then (-1, []) else (0, [pkt k 1]);
     on_flush := (0, [pkt 0 1]);
     on_empty := fun _ _ => 0 |}.

(** The drain after the [j]-th submission ends in an encode failure. *)
Definition chokes (j : nat) : script :=
  {| on_frame := fun k => (0, [pkt k 1]);
     on_flush := (0, [pkt 0 1]);
     on_empty := fun k flushed => if Nat.eqb k j && negb flushed then -1 else 0 |}.

(** One packet per two submissions, two more on flush. *)
Definition lagging : script :=
  {| on_frame := fun k => (0, if Nat.even k then [pkt k 1] else []);
     on_flush := (0, [pkt 0 1; pkt 0 2]);
     on_empty := fun _ _ => 0 |}.

(** Healthy until the flush: the end-of-stream submission is rejected and
    the final drain ends in an encode failure. *)
Definition broken_flush : script :=
  {| on_frame := fun k => (0, [pkt k 1]);
     on_flush := (-1, [pkt 0 1]);
     on_empty := fun _ flushed => if flushed then -1 else 0 |}.

Definition fresh (s : script) : fake :=
  {| behaviour := s; sent := 0; flushed := false; ready := [] |}.

Definition start (s : script) : world nat fake :=
  {| realsense := 0%nat; he := fresh s; out_file := [] |}.

Definition capture (secs fps : Z) : input_args :=
  {| width := 640; height := 360; framerate := fps; seconds := secs;
     filename := "out.h264"%string |}.

(** Decimal [atoi] for well-formed arguments. *)
Fixpoint digits (s : string) (acc : Z) : Z :=
  match s with
  | String c s' =>
    let n := Z.of_nat (Ascii.nat_of_ascii c) in
    if (48 <=? n) && (n <=? 57) then digits s' (10 * acc + (n - 48)) else acc
  | EmptyString => acc
  end.

Definition test_atoi (s : string) : Z :=
  match s with
  | String "-"%char s' => - digits s' 0
  | _ => digits s 0
  end.

(** Only the empty path cannot be opened. *)
Definition test_open (name : string) : bool := negb (String.eqb name EmptyString).

Definition test_start (_ _ _ : Z) : nat := 0%nat.

(** The hardware refuses a non-positive width. *)
Definition test_init (s : script) (c : hve_config) : option fake :=
  if cfg_width c <=? 0 then None else Some (fresh s).

Definition test_main (s : script) (fuel : nat) (argv : list string) : option Z :=
  main test_atoi test_open test_start (test_init s) fuel argv.

(** The state after the warm-up, in front of [three_per_frame]. *)
Definition warmed : world nat fake :=
  {| realsense := 10%nat; he := fresh three_per_frame; out_file := [] |}.

(** A well-formed command line. *)
Definition good_argv : list string :=
  ["capture"; "640"; "360"; "30"; "1"; "out.h264"]%string.

End Doubles.

(** An encoder without faults: one packet per frame, nothing on flush. *)
Module Steady.

Record steady := {
  taken : nat;
  backlog : list AVPacket
}.

Definition steady_send (e : steady) (frame : option hve_frame) : Z * steady :=
  match frame with
  | Some _ =>
    (0, {| taken := S (taken e);
           backlog := backlog e ++ [Doubles.pkt (S (taken e)) 1] |})
  | None => (0, e)
  end.

Definition steady_receive (e : steady) : option AVPacket * Z * steady :=
  match backlog e with
  | p :: ps => (Some p, 0, {| taken := taken e; backlog := ps |})
  | [] => (None, 0, e)
  end.

#[export] Instance steady_encoder : Encoder steady :=
  {| HVE_OK := 0; hve_send_frame := steady_send; hve_receive_packet := steady_receive |}.

Definition steady_start : world nat steady :=
  {| realsense := 0%nat; he := {| taken := 0; backlog := [] |}; out_file := [] |}.

End Steady.

(** What the scenarios below look at: the result, the number of frames
    submitted, of packets written and of end-of-stream submissions. *)
Definition summary {W : Type} (r : option (bool * W * list event))
  : option (bool * nat * nat * nat) :=
  match r with
  | Some (b, _, t) =>
    Some (b, length (frame_submits t), length (writes t), length (flushes t))
  | None => None
  end.

(** ** Projections of traces *)

Lemma collect_app A (f : event -> option A) (t1 t2 : list event) :
  collect f (t1 ++ t2) = collect f t1 ++ collect f t2.
Proof. unfold collect. apply flat_map_app. Qed.

(** ** Steps of the monad *)

Section Facts.

Context {Src Enc : Type} `{FrameSource Src} `{Encoder Enc}.

Local Abbreviation W := (world Src Enc).
Local Abbreviation Run := (M Src Enc).

Lemma bind_inv A B (c : Run A) (k : A -> Run B) (w w2 : W) (b : B) (t : list event) :
  bind c k w = Some (b, w2, t) ->
  exists a w1 t1 t2,
    c w = Some (a, w1, t1) /\ k a w1 = Some (b, w2, t2) /\ t = t1 ++ t2.
Proof.
  unfold bind. destruct (c w) as [[[a w1] t1]|]; [|discriminate].
  destruct (k a w1) as [[[b' w2'] t2]|] eqn:E; [|discriminate].
  intros [= -> -> <-]. now exists a, w1, t1, t2.
Qed.

Lemma bind_step A B (c : Run A) (k : A -> Run B) (w w1 : W) (a : A) (t1 : list event) :
  c w = Some (a, w1, t1) ->
  bind c k w =
  match k a w1 with Some (b, w2, t2) => Some (b, w2, t1 ++ t2) | None => None end.
Proof. unfold bind. now intros ->. Qed.

Arguments bind_step {A B c} k {w w1 a t1} _.

Lemma extends_refl A (c : Run A) : extends c c.
Proof. now intros w r. Qed.

Lemma extends_bind A B (c c' : Run A) (k k' : A -> Run B) :
  extends c c' -> (forall a, extends (k a) (k' a)) ->
  extends (bind c k) (bind c' k').
Proof.
  intros Hc Hk w [[b w2] t] Hb.
  apply bind_inv in Hb as (a & w1 & t1 & t2 & E1 & E2 & ->).
  unfold bind. now rewrite (Hc _ _ E1), (Hk _ _ _ E2).
Qed.

Lemma accounted_ret A (a : A) : accounted (ret a : Run A).
Proof. intros w a' w' t [= _ <- <-]. simpl. now rewrite app_nil_r. Qed.

Lemma accounted_bind A B (c : Run A) (k : A -> Run B) :
  accounted c -> (forall a, accounted (k a)) -> accounted (bind c k).
Proof.
  intros Hc Hk w b w2 t Hb.
  apply bind_inv in Hb as (a & w1 & t1 & t2 & E1 & E2 & ->).
  unfold writes. rewrite collect_app, concat_app, app_assoc.
  fold writes. rewrite <- (Hc _ _ _ _ E1). apply (Hk _ _ _ _ _ E2).
Qed.

Lemma accounted_pull : accounted (pull : Run _).
Proof.
  intros w a w' t. unfold pull. destruct (wait_for_frames (realsense w)).
  intros [= _ <- <-]. simpl. now rewrite app_nil_r.
Qed.

Lemma accounted_send frame : accounted (send_frame frame : Run _).
Proof.
  intros w a w' t. unfold send_frame. destruct (hve_send_frame (he w) frame).
  intros [= _ <- <-]. simpl. destruct frame; simpl; now rewrite app_nil_r.
Qed.

Lemma accounted_receive : accounted (receive_packet : Run _).
Proof.
  intros w a w' t. unfold receive_packet.
  destruct (hve_receive_packet (he w)) as [[p fl] e].
  intros [= _ <- <-]. simpl. destruct p; simpl; now rewrite app_nil_r.
Qed.

Lemma accounted_write b : accounted (write b : Run _).
Proof. intros w a w' t [= _ <- <-]. simpl. now rewrite app_nil_r. Qed.

Lemma accounted_out_of_fuel A : accounted (@out_of_fuel Src Enc A).
Proof. intros w a w' t. discriminate. Qed.

Lemma accounted_warm_up n : accounted (warm_up n : Run _).
Proof.
  induction n; simpl.
  - apply accounted_ret.
  - apply accounted_bind; auto using accounted_pull.
Qed.

Lemma accounted_drain fuel : accounted (drain fuel : Run _).
Proof.
  induction fuel; simpl.
  - apply accounted_out_of_fuel.
  - apply accounted_bind; [apply accounted_receive|].
    intros [[p|] fl]; simpl.
    + apply accounted_bind; auto using accounted_write.
    + apply accounted_ret.
Qed.

Lemma accounted_frame_loop fuel frames : forall f, accounted (frame_loop fuel frames f : Run _).
Proof.
  induction fuel; intros f; simpl.
  - apply accounted_out_of_fuel.
  - destruct (f <? frames); [|apply accounted_ret].
    apply accounted_bind; [apply accounted_pull|]. intros c.
    apply accounted_bind; [apply accounted_send|]. intros rc.
    destruct (negb (rc =? HVE_OK)); [apply accounted_ret|].
    apply accounted_bind; [apply accounted_drain|]. intros fl.
    destruct (negb (fl =? HVE_OK)); [apply accounted_ret|]. apply IHfuel.
Qed.

Lemma accounted_main_loop fuel input : accounted (main_loop fuel input : Run _).
Proof.
  unfold main_loop.
  apply accounted_bind; [apply accounted_warm_up|]. intros _.
  apply accounted_bind; [apply accounted_frame_loop|]. intros f.
  apply accounted_bind; [apply accounted_send|]. intros _.
  apply accounted_bind; [apply accounted_drain|]. intros _.
  apply accounted_ret.
Qed.

(** ** The shape of a run *)

Lemma upcoming_length n : forall s : Src, length (upcoming n s) = n.
Proof.
  induction n; intros s; simpl; [reflexivity|].
  destruct (wait_for_frames s). simpl. now rewrite IHn.
Qed.

Lemma warm_up_shape n : forall (w w' : W) u t,
  warm_up n w = Some (u, w', t) ->
  t = map Pull (upcoming n (realsense w)) /\ he w' = he w.
Proof.
  induction n; intros w w' u t; simpl.
  - now intros [= _ <- <-].
  - intros Hb. apply bind_inv in Hb as (c & w1 & t1 & t2 & E1 & E2 & ->).
    unfold pull in E1. destruct (wait_for_frames (realsense w)) as [c0 s].
    injection E1 as <- <- <-. apply IHn in E2 as [-> ->]. now simpl.
Qed.

Lemma drain_shape fuel : forall (w w' : W) failed t,
  drain fuel w = Some (failed, w', t) ->
  exists ps, t = drain_events ps failed.
Proof.
  induction fuel; intros w w' failed t; simpl; [discriminate|].
  intros Hb. apply bind_inv in Hb as ([p fl] & w1 & t1 & t2 & E1 & E2 & ->).
  unfold receive_packet in E1.
  destruct (hve_receive_packet (he w)) as [[p0 fl0] e].
  injection E1 as <- <- <- <-. destruct p0 as [p|]; simpl in E2.
  - apply bind_inv in E2 as ([] & w2 & t3 & t4 & E3 & E4 & ->).
    injection E3 as <- <-. apply IHfuel in E4 as [ps ->].
    now exists ((p, fl0) :: ps).
  - injection E2 as <- <- <-. now exists [].
Qed.

Lemma frame_loop_shape fuel frames : forall f (w w' : W) f' t,
  frame_loop fuel frames f w = Some (f', w', t) ->
  exists cycles stop,
    t = loop_events cycles stop /\
    f' = f + Z.of_nat (length cycles) /\
    f' <= Z.max f frames /\
    ending_ok frames f' stop.
Proof.
  induction fuel; intros f w w' f' t; simpl; [discriminate|].
  destruct (f <? frames) eqn:Hlt.
  - apply Z.ltb_lt in Hlt. intros Hb.
    apply bind_inv in Hb as (c & w1 & t1 & t2 & E1 & E2 & ->).
    unfold pull in E1. destruct (wait_for_frames (realsense w)) as [c0 s].
    injection E1 as <- <- <-.
    apply bind_inv in E2 as (rc & w2 & t3 & t4 & E3 & E4 & ->).
    unfold send_frame in E3. destruct (hve_send_frame _ _) as [rc0 e].
    injection E3 as <- <- <-.
    destruct (rc0 =? HVE_OK) eqn:Hrc; simpl in E4.
    + apply Z.eqb_eq in Hrc. subst rc0.
      apply bind_inv in E4 as (fl & w3 & t5 & t6 & E5 & E6 & ->).
      apply drain_shape in E5 as [ps ->].
      destruct (fl =? HVE_OK) eqn:Hfl; simpl in E6.
      * apply Z.eqb_eq in Hfl. subst fl.
        apply IHfuel in E6 as (cycles & stop & -> & -> & Hle & Hok).
        exists ((c0, ps) :: cycles), stop. repeat split.
        -- unfold loop_events, cycle_events. simpl. now rewrite <- !app_assoc.
        -- simpl length. lia.
        -- lia.
        -- replace (f + Z.of_nat (length ((c0, ps) :: cycles)))
             with (f + 1 + Z.of_nat (length cycles)) by (simpl length; lia).
           exact Hok.
      * apply Z.eqb_neq in Hfl. injection E6 as <- <- <-.
        exists [], (EncodeFailed c0 ps fl). simpl. rewrite app_nil_r, Z.add_0_r.
        repeat split; auto; lia.
    + apply Z.eqb_neq in Hrc. injection E4 as <- <- <-.
      exists [], (SubmissionFailed c0 rc0). simpl. rewrite Z.add_0_r.
      repeat split; auto; lia.
  - apply Z.ltb_ge in Hlt. intros [= <- <- <-].
    exists [], Completed. simpl. rewrite Z.add_0_r. repeat split; auto; lia.
Qed.

Lemma main_loop_shape fuel input (w w' : W) b t :
  main_loop fuel input w = Some (b, w', t) ->
  run_shape (realsense w) (frames_of input) t b.
Proof.
  unfold main_loop. intros Hb.
  apply bind_inv in Hb as ([] & w1 & t1 & t2 & E1 & E2 & ->).
  apply warm_up_shape in E1 as [-> _].
  apply bind_inv in E2 as (f & w2 & t3 & t4 & E3 & E4 & ->).
  apply frame_loop_shape in E3 as (cycles & stop & -> & -> & Hle & Hok).
  apply bind_inv in E4 as (rc & w3 & t5 & t6 & E5 & E6 & ->).
  unfold send_frame in E5. destruct (hve_send_frame _ _) as [rc0 e].
  injection E5 as <- <- <-.
  apply bind_inv in E6 as (fl & w4 & t7 & t8 & E7 & E8 & ->).
  apply drain_shape in E7 as [ps ->]. injection E8 as <- <- <-.
  rewrite app_nil_r. simpl in *. now constructor.
Qed.

(** ** Fuel *)

Lemma drain_more fuel : extends (drain fuel : Run _) (drain (S fuel)).
Proof.
  induction fuel.
  - intros w r. discriminate.
  - change (drain (S (S fuel)) : Run _) with
      (r <- receive_packet ;;
       match fst r with
       | Some packet => write (packet_bytes packet) ;; (drain (S fuel) : Run _)
       | None => ret (snd r)
       end).
    simpl. apply extends_bind; [apply extends_refl|].
    intros [[p|] fl]; simpl; [|apply extends_refl].
    apply extends_bind; [apply extends_refl|]. intros _. exact IHfuel.
Qed.

Lemma drain_le n m : (n <= m)%nat -> extends (drain n : Run _) (drain m).
Proof.
  induction 1 as [|m _ IH]; [apply extends_refl|].
  intros w r E. now apply drain_more, IH.
Qed.

Lemma frame_loop_more fuel frames :
  forall f, extends (frame_loop fuel frames f : Run _) (frame_loop (S fuel) frames f).
Proof.
  induction fuel; intros f.
  - intros w r. discriminate.
  - change (frame_loop (S (S fuel)) frames f : Run _) with
      (if f <? frames then
         c_frame <- pull ;;
         rc <- send_frame (Some (frame_of c_frame)) ;;
         if negb (rc =? HVE_OK) then ret f
         else
           failed <- drain (S fuel) ;;
           if negb (failed =? HVE_OK) then ret f
           else (frame_loop (S fuel) frames (f + 1) : Run _)
       else ret f).
    simpl. destruct (f <? frames); [|apply extends_refl].
    apply extends_bind; [apply extends_refl|]. intros c.
    apply extends_bind; [apply extends_refl|]. intros rc.
    destruct (negb (rc =? HVE_OK)); [apply extends_refl|].
    apply extends_bind; [apply drain_more|]. intros fl.
    destruct (negb (fl =? HVE_OK)); [apply extends_refl|]. apply IHfuel.
Qed.

Lemma frame_loop_le n m frames f :
  (n <= m)%nat -> extends (frame_loop n frames f : Run _) (frame_loop m frames f).
Proof.
  induction 1 as [|m _ IH]; [apply extends_refl|].
  intros w r E. now apply frame_loop_more, IH.
Qed.

Lemma main_loop_le n m input :
  (n <= m)%nat -> extends (main_loop n input : Run _) (main_loop m input).
Proof.
  intros Hle. unfold main_loop.
  apply extends_bind; [apply extends_refl|]. intros _.
  apply extends_bind; [now apply frame_loop_le|]. intros f.
  apply extends_bind; [apply extends_refl|]. intros _.
  apply extends_bind; [now apply drain_le|]. intros _. apply extends_refl.
Qed.

(** A run has one result, whatever the fuel. *)
Lemma main_loop_returns_unique input (w w1 w2 : W) b1 b2 t1 t2 :
  main_loop_returns input w b1 w1 t1 ->
  main_loop_returns input w b2 w2 t2 ->
  b1 = b2 /\ w1 = w2 /\ t1 = t2.
Proof.
  intros [n1 E1] [n2 E2].
  apply (main_loop_le input (Nat.le_max_l n1 n2)) in E1.
  apply (main_loop_le input (Nat.le_max_r n1 n2)) in E2.
  rewrite E1 in E2. now injection E2 as -> -> ->.
Qed.

(** ** Termination *)

Lemma pull_total (w : W) :
  exists c, pull w =
    Some (c, {| realsense := snd (wait_for_frames (realsense w));
                he := he w; out_file := out_file w |}, [Pull c]).
Proof.
  unfold pull. destruct (wait_for_frames (realsense w)) as [c s]. now exists c.
Qed.

Lemma send_total frame (w : W) :
  exists rc e, send_frame frame w =
    Some (rc, {| realsense := realsense w; he := e; out_file := out_file w |},
          [Submit frame rc]).
Proof.
  unfold send_frame. destruct (hve_send_frame (he w) frame) as [rc e].
  now exists rc, e.
Qed.

Lemma warm_up_total n : forall w : W, exists w' t, warm_up n w = Some (tt, w', t).
Proof.
  induction n; intros w; simpl.
  - now exists w, [].
  - destruct (pull_total w) as [c Ep]. rewrite (bind_step _ Ep).
    destruct (IHn {| realsense := snd (wait_for_frames (realsense w));
                     he := he w; out_file := out_file w |}) as (w' & t & ->).
    eauto.
Qed.

Lemma drain_terminates e :
  quiescent e ->
  forall w : W, he w = e -> exists fuel failed w' t, drain fuel w = Some (failed, w', t).
Proof.
  induction 1 as [e fl e' Hr | e p fl e' Hr _ IH]; intros w He.
  - exists 1%nat. simpl. unfold bind, receive_packet. rewrite He, Hr. simpl. eauto.
  - destruct (IH {| realsense := realsense w; he := e';
                    out_file := out_file w ++ packet_bytes p |} eq_refl)
      as (n & failed & w' & t & E).
    exists (S n). simpl. unfold bind at 1. unfold receive_packet.
    rewrite He, Hr. simpl. unfold bind, write. simpl. rewrite E. eauto.
Qed.

Section Quiescent.

Hypothesis always_quiescent : forall e : Enc, quiescent e.

Lemma frame_loop_terminates k : forall frames f (w : W),
  frames - f <= Z.of_nat k ->
  exists fuel f' w' t, frame_loop fuel frames f w = Some (f', w', t).
Proof.
  induction k; intros frames f w Hk.
  - exists 1%nat. simpl. replace (f <? frames) with false by (symmetry; apply Z.ltb_ge; lia).
    unfold ret. eauto.
  - destruct (f <? frames) eqn:Hlt.
    2:{ exists 1%nat. simpl. rewrite Hlt. unfold ret. eauto. }
    destruct (pull_total w) as [c Ep].
    destruct (send_total (Some (frame_of c))
                {| realsense := snd (wait_for_frames (realsense w));
                   he := he w; out_file := out_file w |}) as (rc & e & Es).
    destruct (rc =? HVE_OK) eqn:Hrc.
    2:{ exists 1%nat. simpl. rewrite Hlt, (bind_step _ Ep), (bind_step _ Es), Hrc.
        simpl. unfold ret. eauto. }
    match type of Es with _ = Some (_, ?w2, _) =>
      destruct (drain_terminates (always_quiescent e) w2 eq_refl)
        as (n1 & failed & w3 & t3 & Ed)
    end.
    destruct (failed =? HVE_OK) eqn:Hfl.
    2:{ exists (S n1). simpl.
        rewrite Hlt, (bind_step _ Ep), (bind_step _ Es), Hrc. simpl.
        rewrite (bind_step _ Ed), Hfl. simpl. unfold ret. eauto. }
    destruct (IHk frames (f + 1) w3) as (n2 & f' & w' & t & El); [lia|].
    apply (drain_le (Nat.le_max_l n1 n2)) in Ed.
    apply (frame_loop_le frames (f + 1) (Nat.le_max_r n1 n2)) in El.
    exists (S (Nat.max n1 n2)). simpl.
    rewrite Hlt, (bind_step _ Ep), (bind_step _ Es), Hrc. simpl.
    rewrite (bind_step _ Ed), Hfl. simpl. rewrite El. eauto.
Qed.

(** With an encoder that always quiesces, [main_loop] returns, its trace
    has the shape of a run and the file holds what the trace wrote. *)
Lemma main_loop_total input (w : W) :
  exists b w' t,
    main_loop_returns input w b w' t /\
    run_shape (realsense w) (frames_of input) t b /\
    out_file w' = out_file w ++ concat (writes t).
Proof.
  destruct (warm_up_total 10 w) as (w1 & t1 & E1).
  destruct (frame_loop_terminates (Z.to_nat (frames_of input)) (frames_of input) 0 w1)
    as (n1 & f & w2 & t2 & E2); [lia|].
  destruct (send_total None w2) as (rc & e & E3).
  match type of E3 with _ = Some (_, ?w3, _) =>
    destruct (drain_terminates (always_quiescent e) w3 eq_refl)
      as (n2 & failed & w4 & t4 & E4)
  end.
  assert (E : main_loop (Nat.max n1 n2) input w =
              Some (f =? frames_of input, w4, t1 ++ t2 ++ [Submit None rc] ++ t4 ++ [])).
  { apply (frame_loop_le (frames_of input) 0 (Nat.le_max_l n1 n2)) in E2.
    apply (drain_le (Nat.le_max_r n1 n2)) in E4.
    unfold main_loop.
    rewrite (bind_step _ E1), (bind_step _ E2), (bind_step _ E3), (bind_step _ E4).
    reflexivity. }
  eexists _, _, _. split; [eexists; exact E|]. split.
  - eapply main_loop_shape, E.
  - eapply accounted_main_loop, E.
Qed.

End Quiescent.

(** ** Projections of the pieces of a run *)

Lemma pulls_warm (cs : list video_frame) : pulls (map Pull cs) = cs.
Proof. induction cs; simpl; congruence. Qed.

Lemma frame_submits_warm (cs : list video_frame) : frame_submits (map Pull cs) = [].
Proof. induction cs; simpl; auto. Qed.

Lemma flushes_warm (cs : list video_frame) : flushes (map Pull cs) = [].
Proof. induction cs; simpl; auto. Qed.

Lemma emitted_warm (cs : list video_frame) : emitted (map Pull cs) = [].
Proof. induction cs; simpl; auto. Qed.

Lemma writes_warm (cs : list video_frame) : writes (map Pull cs) = [].
Proof. induction cs; simpl; auto. Qed.

Lemma frame_submits_drain ps failed : frame_submits (drain_events ps failed) = [].
Proof. induction ps; simpl; auto. Qed.

Lemma flushes_drain ps failed : flushes (drain_events ps failed) = [].
Proof. induction ps; simpl; auto. Qed.

Lemma pulls_drain ps failed : pulls (drain_events ps failed) = [].
Proof. induction ps; simpl; auto. Qed.

Lemma emitted_drain ps failed : emitted (drain_events ps failed) = map fst ps.
Proof.
  induction ps as [|[p fl] ps IH]; simpl; [reflexivity|].
  f_equal. exact IH.
Qed.

Lemma writes_drain ps failed :
  writes (drain_events ps failed) = map packet_bytes (map fst ps).
Proof.
  induction ps as [|[p fl] ps IH]; simpl; [reflexivity|].
  f_equal. exact IH.
Qed.

Lemma failure_drain ps failed :
  existsb is_failure (drain_events ps failed) = negb (failed =? HVE_OK).
Proof.
  induction ps as [|[p fl] ps IH]; simpl; [apply orb_false_r|]. exact IH.
Qed.

Lemma pulls_app t1 t2 : pulls (t1 ++ t2) = pulls t1 ++ pulls t2.
Proof. apply collect_app. Qed.

Lemma frame_submits_app t1 t2 :
  frame_submits (t1 ++ t2) = frame_submits t1 ++ frame_submits t2.
Proof. apply collect_app. Qed.

Lemma flushes_app t1 t2 : flushes (t1 ++ t2) = flushes t1 ++ flushes t2.
Proof. apply collect_app. Qed.

Lemma emitted_app t1 t2 : emitted (t1 ++ t2) = emitted t1 ++ emitted t2.
Proof. apply collect_app. Qed.

Lemma writes_app t1 t2 : writes (t1 ++ t2) = writes t1 ++ writes t2.
Proof. apply collect_app. Qed.

Lemma frame_submits_loop cycles stop :
  frame_submits (loop_events cycles stop) =
  map (fun c => (frame_of (fst c), HVE_OK)) cycles ++ ending_submits stop.
Proof.
  unfold loop_events. rewrite frame_submits_app. f_equal.
  - induction cycles as [|[c ps] cycles IH]; [reflexivity|].
    cbn [flat_map fst snd map]. rewrite frame_submits_app, IH.
    unfold cycle_events. now rewrite frame_submits_app, frame_submits_drain.
  - destruct stop as [|c rc|c ps fl]; try reflexivity.
    unfold ending_events, cycle_events, ending_submits.
    now rewrite frame_submits_app, frame_submits_drain.
Qed.

Lemma flushes_loop cycles stop : flushes (loop_events cycles stop) = [].
Proof.
  unfold loop_events. rewrite flushes_app.
  replace (flushes (ending_events stop)) with (@nil Z).
  - rewrite app_nil_r. induction cycles as [|[c ps] cycles IH]; [reflexivity|].
    cbn [flat_map fst snd]. rewrite flushes_app, IH.
    unfold cycle_events. now rewrite flushes_app, flushes_drain.
  - destruct stop as [|c rc|c ps fl]; try reflexivity.
    unfold ending_events, cycle_events. now rewrite flushes_app, flushes_drain.
Qed.

Lemma writes_emitted_loop cycles stop :
  writes (loop_events cycles stop) = map packet_bytes (emitted (loop_events cycles stop)).
Proof.
  unfold loop_events. rewrite writes_app, emitted_app, map_app. f_equal.
  - induction cycles as [|[c ps] cycles IH]; [reflexivity|].
    cbn [flat_map fst snd]. rewrite writes_app, emitted_app, map_app, IH.
    unfold cycle_events.
    now rewrite writes_app, emitted_app, writes_drain, emitted_drain.
  - destruct stop as [|c rc|c ps fl]; try reflexivity.
    unfold ending_events, cycle_events.
    now rewrite writes_app, emitted_app, writes_drain, emitted_drain.
Qed.

Lemma failure_loop frames cycles stop :
  ending_ok frames (Z.of_nat (length cycles)) stop ->
  existsb is_failure (loop_events cycles stop) =
  match stop with Completed => false | _ => true end.
Proof.
  intros Hok. unfold loop_events. rewrite existsb_app.
  replace (existsb is_failure
             (flat_map (fun c => cycle_events (fst c) (snd c) HVE_OK) cycles))
    with false.
  - destruct stop as [|c rc|c ps fl]; simpl in *.
    + reflexivity.
    + destruct Hok as [_ Hrc]. apply Z.eqb_neq in Hrc. now rewrite Hrc.
    + destruct Hok as [_ Hfl]. apply Z.eqb_neq in Hfl.
      rewrite Z.eqb_refl. simpl. now rewrite failure_drain, Hfl.
  - clear Hok. symmetry. induction cycles as [|[c ps] cycles IH]; [reflexivity|].
    cbn [flat_map fst snd]. rewrite existsb_app, IH. unfold cycle_events.
    rewrite existsb_app, failure_drain. simpl. now rewrite Z.eqb_refl.
Qed.

Create Rewrite HintDb trace.

Hint Rewrite pulls_app frame_submits_app flushes_app emitted_app writes_app
  pulls_warm frame_submits_warm flushes_warm emitted_warm writes_warm
  pulls_drain frame_submits_drain flushes_drain emitted_drain writes_drain
  frame_submits_loop flushes_loop : trace.

Lemma failure_warm (cs : list video_frame) : existsb is_failure (map Pull cs) = false.
Proof. induction cs; simpl; auto. Qed.

Lemma bytes_of_writes ps failed :
  concat (writes (drain_events ps failed)) = bytes_of ps.
Proof. rewrite writes_drain, map_map. reflexivity. Qed.

(** A run whose target is not positive is the warm-up followed by the flush. *)
Lemma idle_run (s : Src) frames t b :
  frames <= 0 -> run_shape s frames t b ->
  b = (0 =? frames) /\
  exists rc ps failed,
    t = map Pull (upcoming 10 s) ++ [Submit None rc] ++ drain_events ps failed.
Proof.
  intros Hle [cycles stop rc ps failed Hlen Hok].
  assert (cycles = []) as -> by (destruct cycles; [reflexivity|simpl length in Hlen; lia]).
  split; [reflexivity|]. exists rc, ps, failed.
  destruct stop as [|c rc0|c ps0 fl]; simpl in Hok; [reflexivity|lia|lia].
Qed.

(** *** Drains follow accepted submissions *)

Lemma das_nil : drained_after_submit [].
Proof. intros pre fr rest E. now destruct pre. Qed.

Lemma das_cons e t :
  (forall fr, e <> Submit (Some fr) HVE_OK) ->
  drained_after_submit t -> drained_after_submit (e :: t).
Proof.
  intros He Ht pre fr rest E. destruct pre as [|e0 pre]; simpl in E.
  - injection E as -> _. now destruct (He fr).
  - injection E as _ E. exact (Ht _ _ _ E).
Qed.

Lemma das_drain ps failed t :
  drained_after_submit t -> drained_after_submit (drain_events ps failed ++ t).
Proof.
  intros Ht. unfold drain_events. rewrite <- app_assoc.
  induction ps as [|[p fl] ps IH]; simpl.
  - now apply das_cons.
  - apply das_cons; [discriminate|]. now apply das_cons.
Qed.

Lemma das_submit fr ps failed t :
  drained_after_submit t ->
  drained_after_submit (Submit (Some fr) HVE_OK :: drain_events ps failed ++ t).
Proof.
  intros Ht pre fr' rest E. destruct pre as [|e0 pre]; simpl in E.
  - injection E as _ <-. now exists ps, failed, t.
  - injection E as _ E. exact (das_drain ps failed Ht _ _ _ E).
Qed.

Lemma das_cycle c ps failed t :
  drained_after_submit t -> drained_after_submit (cycle_events c ps failed ++ t).
Proof.
  intros Ht. unfold cycle_events. simpl.
  apply das_cons; [discriminate|]. now apply das_submit.
Qed.

Lemma das_loop frames cycles stop t :
  ending_ok frames (Z.of_nat (length cycles)) stop ->
  drained_after_submit t -> drained_after_submit (loop_events cycles stop ++ t).
Proof.
  intros Hok Ht. unfold loop_events. rewrite <- app_assoc.
  assert (He : drained_after_submit (ending_events stop ++ t)).
  { destruct stop as [|c rc|c ps fl]; simpl in Hok |- *.
    - exact Ht.
    - apply das_cons; [discriminate|]. apply das_cons; [|exact Ht].
      intros fr [= _ Hrc]. now destruct Hok.
    - now apply das_cycle. }
  clear Hok. induction cycles as [|[c ps] cycles IH]; simpl; [exact He|].
  rewrite <- app_assoc. now apply das_cycle.
Qed.

Lemma das_warm (cs : list video_frame) t :
  drained_after_submit t -> drained_after_submit (map Pull cs ++ t).
Proof.
  intros Ht. induction cs; simpl; [exact Ht|]. now apply das_cons.
Qed.

Lemma das_run (s : Src) frames t b : run_shape s frames t b -> drained_after_submit t.
Proof.
  intros [cycles stop rc ps failed Hlen Hok].
  apply das_warm, (das_loop _ _ _ Hok). simpl. apply das_cons; [discriminate|].
  rewrite <- (app_nil_r (drain_events ps failed)). apply das_drain, das_nil.
Qed.

(** The drain loop hands on everything the encoder has ready. *)
Lemma drain_yields e ps failed e' :
  yields e ps failed e' ->
  forall w : W, he w = e ->
  exists fuel,
    drain fuel w =
    Some (failed,
          {| realsense := realsense w; he := e'; out_file := out_file w ++ bytes_of ps |},
          drain_events ps failed).
Proof.
  induction 1 as [e failed e' Hr | e p fl e1 ps failed e' Hr _ IH]; intros w He.
  - exists 1%nat. simpl. unfold bind, receive_packet. rewrite He, Hr. simpl.
    unfold bytes_of. simpl. now rewrite app_nil_r.
  - destruct (IH {| realsense := realsense w; he := e1;
                    out_file := out_file w ++ packet_bytes p |} eq_refl) as [n E].
    exists (S n). simpl. unfold bind at 1. unfold receive_packet.
    rewrite He, Hr. simpl. unfold bind, write. simpl. rewrite E. simpl.
    unfold bytes_of. simpl. now rewrite <- app_assoc.
Qed.

(** *** Submissions follow pulls *)

Lemma sfp_nil : submits_follow_pulls [].
Proof. intros pre fr rc post E. now destruct pre. Qed.

Lemma sfp_cons e t :
  (forall fr rc, e <> Submit (Some fr) rc) ->
  submits_follow_pulls t -> submits_follow_pulls (e :: t).
Proof.
  intros He Ht pre fr rc post E. destruct pre as [|e0 pre]; simpl in E.
  - injection E as -> _. now destruct (He fr rc).
  - injection E as <- E. destruct (Ht _ _ _ _ E) as (pre' & c & -> & ->).
    now exists (e :: pre'), c.
Qed.

Lemma sfp_pull_submit c rc t :
  submits_follow_pulls t ->
  submits_follow_pulls (Pull c :: Submit (Some (frame_of c)) rc :: t).
Proof.
  intros Ht pre fr rc' post E. destruct pre as [|e0 [|e1 pre]]; simpl in E.
  - discriminate.
  - injection E as <- <- _ _. now exists [], c.
  - injection E as <- <- E. destruct (Ht _ _ _ _ E) as (pre' & c' & -> & ->).
    now exists (Pull c :: Submit (Some (frame_of c)) rc :: pre'), c'.
Qed.

Lemma sfp_drain ps failed t :
  submits_follow_pulls t -> submits_follow_pulls (drain_events ps failed ++ t).
Proof.
  intros Ht. unfold drain_events. rewrite <- app_assoc.
  induction ps as [|[p fl] ps IH]; simpl.
  - now apply sfp_cons.
  - apply sfp_cons; [discriminate|]. now apply sfp_cons.
Qed.

Lemma sfp_loop cycles stop t :
  submits_follow_pulls t -> submits_follow_pulls (loop_events cycles stop ++ t).
Proof.
  intros Ht. unfold loop_events. rewrite <- app_assoc.
  assert (He : submits_follow_pulls (ending_events stop ++ t)).
  { destruct stop as [|c rc|c ps fl]; simpl.
    - exact Ht.
    - now apply sfp_pull_submit.
    - apply sfp_pull_submit. now apply sfp_drain. }
  induction cycles as [|[c ps] cycles IH]; simpl; [exact He|].
  rewrite <- app_assoc. apply sfp_pull_submit. now apply sfp_drain.
Qed.

(** *** Counting *)

Lemma pulls_loop cycles stop :
  length (pulls (loop_events cycles stop)) =
  (length cycles + length (ending_submits stop))%nat.
Proof.
  unfold loop_events. rewrite pulls_app, length_app. f_equal.
  - induction cycles as [|[c ps] cycles IH]; [reflexivity|].
    cbn [flat_map fst snd]. rewrite pulls_app, length_app, IH.
    unfold cycle_events. now rewrite pulls_app, pulls_drain.
  - destruct stop as [|c rc|c ps fl]; try reflexivity.
    unfold ending_events, cycle_events. now rewrite pulls_app, pulls_drain.
Qed.

Lemma wrap32_in_int z : in_int z -> wrap32 z = z.
Proof.
  unfold in_int, wrap32. intros Hz. rewrite Z.mod_small; lia.
Qed.

(** ** The claims *)

Section Claims.

Hypothesis always_quiescent : forall e : Enc, quiescent e.

(** C1: [main_loop] returns [true] exactly when the frame loop went through
    all [frames] submit cycles with no submission or encode failure.  The
    condition only reads the events before the end-of-stream submission, so
    neither the status of that submission nor the outcome of the final drain
    ([rc], [failed]) has any part in it. *)
Theorem success_iff_loop_completed input (w : W) :
  exists b w' t,
    main_loop_returns input w b w' t /\
    exists pre rc ps failed,
      t = pre ++ [Submit None rc] ++ drain_events ps failed /\
      flushes pre = [] /\
      (b = true <->
       Z.of_nat (length (frame_submits pre)) = frames_of input /\
       existsb is_failure pre = false).
Proof.
  destruct (main_loop_total always_quiescent input w) as (b & w' & t & Hr & Hs & _).
  exists b, w', t. split; [exact Hr|].
  destruct Hs as [cycles stop rc ps failed Hlen Hok].
  exists (map Pull (upcoming 10 (realsense w)) ++ loop_events cycles stop), rc, ps, failed.
  split; [now rewrite <- app_assoc|]. split.
  - now autorewrite with trace.
  - autorewrite with trace.
    rewrite existsb_app, failure_warm, (failure_loop _ _ _ Hok).
    cbn [app orb]. rewrite length_app, length_map, Z.eqb_eq.
    destruct stop as [|c rc0|c ps0 fl]; simpl in *.
    + rewrite Nat.add_0_r. tauto.
    + split; [lia|]. intros [_ Hf]. discriminate.
    + split; [lia|]. intros [_ Hf]. discriminate.
Qed.

(** C2: however the frame loop is left, the run goes on to submit the
    end-of-stream ([NULL]) frame and to drain the encoder; every packet
    handed out by that drain is appended to the output file. *)
Theorem flush_always_runs input (w : W) :
  exists b w' t,
    main_loop_returns input w b w' t /\
    exists pre rc ps failed,
      t = pre ++ [Submit None rc] ++ drain_events ps failed /\
      flushes pre = [] /\
      out_file w' = (out_file w ++ concat (writes pre)) ++ bytes_of ps.
Proof.
  destruct (main_loop_total always_quiescent input w) as (b & w' & t & Hr & Hs & Hf).
  exists b, w', t. split; [exact Hr|].
  destruct Hs as [cycles stop rc ps failed Hlen Hok].
  exists (map Pull (upcoming 10 (realsense w)) ++ loop_events cycles stop), rc, ps, failed.
  split; [now rewrite <- app_assoc|]. split.
  - now autorewrite with trace.
  - rewrite Hf. rewrite !writes_app, !concat_app, bytes_of_writes.
    rewrite <- !app_assoc. reflexivity.
Qed.

(** C3: the chunks written to the output file are the packets the encoder
    handed out, in the order it handed them out, and the file grows by their
    concatenation. *)
Theorem packets_written_in_emission_order input (w : W) :
  exists b w' t,
    main_loop_returns input w b w' t /\
    writes t = map packet_bytes (emitted t) /\
    out_file w' = out_file w ++ concat (map packet_bytes (emitted t)).
Proof.
  destruct (main_loop_total always_quiescent input w) as (b & w' & t & Hr & Hs & Hf).
  exists b, w', t. split; [exact Hr|].
  assert (Hw : writes t = map packet_bytes (emitted t)).
  { destruct Hs as [cycles stop rc ps failed Hlen Hok].
    rewrite !writes_app, !emitted_app, !map_app.
    now rewrite writes_warm, emitted_warm, writes_emitted_loop, writes_drain, emitted_drain. }
  split; [exact Hw|]. now rewrite <- Hw.
Qed.

(** C6: with a target of zero frames the run is the warm-up followed by one
    flush: no frame is submitted, the end-of-stream frame is submitted once
    and the result is [true], whatever the flush reports. *)
Theorem zero_target_run input (w : W) :
  frames_of input = 0 ->
  exists b w' t,
    main_loop_returns input w b w' t /\
    (exists rc ps failed,
       t = map Pull (upcoming 10 (realsense w)) ++ [Submit None rc] ++ drain_events ps failed) /\
    frame_submits t = [] /\
    length (flushes t) = 1%nat /\
    b = true.
Proof.
  intros H0'.
  destruct (main_loop_total always_quiescent input w) as (b & w' & t & Hr & Hs & _).
  exists b, w', t. split; [exact Hr|].
  apply idle_run in Hs as [-> (rc & ps & failed & ->)]; [|lia].
  split; [now exists rc, ps, failed|].
  autorewrite with trace. rewrite H0'. now repeat split.
Qed.

(** C10: with a negative target the body of the frame loop never runs: the
    run is the warm-up followed by the flush, no frame is submitted and the
    result is [false]. *)
Theorem negative_target_run input (w : W) :
  frames_of input < 0 ->
  exists b w' t,
    main_loop_returns input w b w' t /\
    (exists rc ps failed,
       t = map Pull (upcoming 10 (realsense w)) ++ [Submit None rc] ++ drain_events ps failed) /\
    frame_submits t = [] /\
    length (flushes t) = 1%nat /\
    b = false.
Proof.
  intros Hneg.
  destruct (main_loop_total always_quiescent input w) as (b & w' & t & Hr & Hs & _).
  exists b, w', t. split; [exact Hr|].
  apply idle_run in Hs as [-> (rc & ps & failed & ->)]; [|lia].
  split; [now exists rc, ps, failed|].
  autorewrite with trace. repeat split. apply Z.eqb_neq. lia.
Qed.

(** One pass through the loop body whose submission is accepted: whatever
    the encoder then has ready is drained and written before the loop goes
    on. *)
Lemma cycle_drains_all frames f (w0 : W) c s e1 ps failed e' :
  f < frames ->
  wait_for_frames (realsense w0) = (c, s) ->
  hve_send_frame (he w0) (Some (frame_of c)) = (HVE_OK, e1) ->
  yields e1 ps failed e' ->
  exists fuel f' w' rest,
    frame_loop fuel frames f w0 = Some (f', w', cycle_events c ps failed ++ rest) /\
    out_file w' = out_file w0 ++ bytes_of ps ++ concat (writes rest).
Proof.
  intros Hlt Hw Hs Hy. apply Z.ltb_lt in Hlt.
  assert (Ep : pull w0 =
               Some (c, {| realsense := s; he := he w0; out_file := out_file w0 |}, [Pull c]))
    by (unfold pull; now rewrite Hw).
  assert (Es : send_frame (Some (frame_of c))
                 {| realsense := s; he := he w0; out_file := out_file w0 |} =
               Some (HVE_OK, {| realsense := s; he := e1; out_file := out_file w0 |},
                     [Submit (Some (frame_of c)) HVE_OK]))
    by (unfold send_frame; simpl; now rewrite Hs).
  destruct (drain_yields Hy {| realsense := s; he := e1; out_file := out_file w0 |} eq_refl)
    as [n1 Ed]. simpl in Ed.
  destruct (failed =? HVE_OK) eqn:Hfl.
  - destruct (frame_loop_terminates always_quiescent (Z.to_nat (frames - (f + 1))) frames (f + 1)
                {| realsense := s; he := e'; out_file := out_file w0 ++ bytes_of ps |})
      as (n2 & f' & w' & t & El); [lia|].
    pose proof (accounted_frame_loop _ _ _ _ El) as Ha. simpl in Ha.
    apply (drain_le (Nat.le_max_l n1 n2)) in Ed.
    apply (frame_loop_le frames (f + 1) (Nat.le_max_r n1 n2)) in El.
    exists (S (Nat.max n1 n2)), f', w', t. split.
    + simpl. rewrite Hlt, (bind_step _ Ep), (bind_step _ Es), Z.eqb_refl. simpl.
      rewrite (bind_step _ Ed), Hfl. simpl. rewrite El. reflexivity.
    + now rewrite Ha, <- app_assoc.
  - exists (S n1), f, {| realsense := s; he := e'; out_file := out_file w0 ++ bytes_of ps |}, [].
    split.
    + simpl. rewrite Hlt, (bind_step _ Ep), (bind_step _ Es), Z.eqb_refl. simpl.
      rewrite (bind_step _ Ed), Hfl. simpl. unfold cycle_events.
      now rewrite app_nil_r.
    + simpl. now rewrite app_nil_r.
Qed.

(** C4: in a run, every accepted frame submission is followed at once by a
    complete drain: polls, each packet written as soon as it is handed out,
    up to a [NULL] poll, before anything else happens.  And a pass through
    the loop body hands on all the encoder has ready: if, once the frame is
    accepted, polling yields exactly the packets [ps] (three, say) before
    [NULL], the pass writes all of [ps]. *)
Theorem drain_is_exhaustive input (w : W) :
  (exists b w' t,
     main_loop_returns input w b w' t /\ drained_after_submit t) /\
  (forall frames f (w0 : W) c s e1 ps failed e',
     f < frames ->
     wait_for_frames (realsense w0) = (c, s) ->
     hve_send_frame (he w0) (Some (frame_of c)) = (HVE_OK, e1) ->
     yields e1 ps failed e' ->
     exists fuel f' w' rest,
       frame_loop fuel frames f w0 = Some (f', w', cycle_events c ps failed ++ rest) /\
       out_file w' = out_file w0 ++ bytes_of ps ++ concat (writes rest)).
Proof.
  split.
  - destruct (main_loop_total always_quiescent input w) as (b & w' & t & Hr & Hs & _).
    exists b, w', t. split; [exact Hr|]. exact (das_run Hs).
  - intros frames f w0 c s e1 ps failed e'. apply cycle_drains_all.
Qed.

(** C5 (amended): if the frame submission number [S i] is rejected, it is
    the last one: exactly [S i] frames were submitted, which is at most the
    target; the rejected submission is followed at once by the flush, so
    only the warm-up and one frame per submission were pulled; the result
    is [false]. *)
Theorem rejected_submission_is_last input (w : W) :
  exists b w' t,
    main_loop_returns input w b w' t /\
    forall i fr rc,
      nth_error (frame_submits t) i = Some (fr, rc) -> rc <> HVE_OK ->
      length (frame_submits t) = S i /\
      Z.of_nat (S i) <= frames_of input /\
      length (pulls t) = (10 + S i)%nat /\
      (exists pre rc' ps failed,
         t = pre ++ [Submit (Some fr) rc; Submit None rc'] ++ drain_events ps failed) /\
      b = false.
Proof.
  destruct (main_loop_total always_quiescent input w) as (b & w' & t & Hr & Hs & _).
  exists b, w', t. split; [exact Hr|].
  destruct Hs as [cycles stop rc0 ps failed Hlen Hok].
  intros i fr rc Hnth Hrc.
  rewrite !frame_submits_app, frame_submits_warm, frame_submits_loop in Hnth.
  rewrite frame_submits_drain in Hnth.
  change (frame_submits [Submit None rc0]) with (@nil (hve_frame * Z)) in Hnth.
  rewrite !app_nil_r in Hnth. cbn [app] in Hnth.
  destruct (Nat.lt_ge_cases i (length cycles)) as [Hi|Hi].
  { rewrite nth_error_app1 in Hnth by now rewrite length_map.
    apply nth_error_In, in_map_iff in Hnth as (c & [= _ <-] & _). now destruct Hrc. }
  rewrite nth_error_app2 in Hnth by now rewrite length_map.
  rewrite length_map in Hnth.
  destruct stop as [|c rc1|c ps1 fl]; simpl in Hnth.
  - now destruct (i - length cycles)%nat.
  - destruct (i - length cycles)%nat as [|[|j]] eqn:Hd; try discriminate.
    injection Hnth as <- <-. assert (i = length cycles) as -> by lia.
    destruct Hok as [Hlt _].
    rewrite !frame_submits_app, !pulls_app, frame_submits_warm, frame_submits_loop.
    rewrite pulls_warm, pulls_drain, frame_submits_drain.
    rewrite !length_app, pulls_loop, length_map, upcoming_length. simpl length.
    split; [lia|]. split; [lia|]. split; [lia|]. split.
    + exists (map Pull (upcoming 10 (realsense w))
              ++ flat_map (fun c => cycle_events (fst c) (snd c) HVE_OK) cycles
              ++ [Pull c]), rc0, ps, failed.
      unfold loop_events. simpl. now rewrite <- !app_assoc.
    + apply Z.eqb_neq. lia.
  - destruct (i - length cycles)%nat as [|[|j]]; try discriminate.
    injection Hnth as _ <-. now destruct Hrc.
Qed.

(** C7 (amended): when [seconds * framerate] fits an [int], the target is
    that product; a run submits at most that many frames (none if it is
    negative) and exactly that many when it returns [true]. *)
Theorem target_is_product_in_range input (w : W) :
  in_int (seconds input * framerate input) ->
  frames_of input = seconds input * framerate input /\
  exists b w' t,
    main_loop_returns input w b w' t /\
    Z.of_nat (length (frame_submits t)) <= Z.max 0 (seconds input * framerate input) /\
    (b = true ->
     Z.of_nat (length (frame_submits t)) = seconds input * framerate input).
Proof.
  intros Hin. assert (Hf : frames_of input = seconds input * framerate input)
    by now apply wrap32_in_int.
  split; [exact Hf|]. rewrite <- Hf.
  destruct (main_loop_total always_quiescent input w) as (b & w' & t & Hr & Hs & _).
  exists b, w', t. split; [exact Hr|].
  destruct Hs as [cycles stop rc ps failed Hlen Hok].
  rewrite !frame_submits_app, frame_submits_warm, frame_submits_loop, frame_submits_drain.
  rewrite !length_app, length_map, Z.eqb_eq. simpl length.
  destruct stop as [|c rc1|c ps1 fl]; simpl in *; lia.
Qed.

(** C9: the warm-up pulls exactly ten frames and touches neither the
    encoder nor the output file; a run starts with these ten pulls, pulls
    one more frame per frame submission, and every frame it submits is the
    frame of the pull just before the submission, never one of the ten. *)
Theorem warm_up_discards_ten input (w : W) :
  (exists w1,
     warm_up 10 w = Some (tt, w1, map Pull (upcoming 10 (realsense w))) /\
     length (upcoming 10 (realsense w)) = 10%nat /\
     he w1 = he w /\ out_file w1 = out_file w) /\
  exists b w' t,
    main_loop_returns input w b w' t /\
    length (pulls t) = (10 + length (frame_submits t))%nat /\
    exists rest,
      t = map Pull (upcoming 10 (realsense w)) ++ rest /\
      submits_follow_pulls rest.
Proof.
  split.
  - destruct (warm_up_total 10 w) as (w1 & t1 & E).
    destruct (warm_up_shape _ _ E) as [-> He].
    exists w1. repeat split; auto using upcoming_length.
    rewrite (accounted_warm_up _ _ E), writes_warm. apply app_nil_r.
  - destruct (main_loop_total always_quiescent input w) as (b & w' & t & Hr & Hs & _).
    exists b, w', t. split; [exact Hr|].
    destruct Hs as [cycles stop rc ps failed Hlen Hok]. split.
    { autorewrite with trace. rewrite !length_app, pulls_loop, upcoming_length, length_map.
      simpl. lia. }
    eexists. split; [reflexivity|].
    apply sfp_loop. simpl. apply sfp_cons; [discriminate|].
    rewrite <- (app_nil_r (drain_events ps failed)). apply sfp_drain, sfp_nil.
Qed.

End Claims.

End Facts.

(** ** Exit codes *)

Section ExitCodes.

Context {Src Enc : Type} `{FrameSource Src} `{Encoder Enc}.

Variable atoi : string -> Z.
Variable open_ok : string -> bool.
Variable pipeline_start : Z -> Z -> Z -> Src.
Variable hve_init : hve_config -> option Enc.

Hypothesis always_quiescent : forall e : Enc, quiescent e.

Local Abbreviation main' := (main atoi open_ok pipeline_start hve_init).
Local Abbreviation input_of := (user_input_of atoi).
Local Abbreviation config_of := (hardware_config_of atoi).

(** C8: [main] exits with 1 when there are fewer than five arguments, with
    2 when the output file cannot be opened, with 3 when the encoder cannot
    be initialised, and with 0 once [main_loop] has returned, whatever
    status it returned. *)
Theorem exit_codes (argv : list string) :
  (Z.of_nat (length argv) < 6 -> forall fuel, main' fuel argv = Some 1) /\
  (6 <= Z.of_nat (length argv) -> open_ok (arg argv 5) = false ->
   forall fuel, main' fuel argv = Some 2) /\
  (6 <= Z.of_nat (length argv) -> open_ok (arg argv 5) = true ->
   hve_init (config_of argv) = None ->
   forall fuel, main' fuel argv = Some 3) /\
  (6 <= Z.of_nat (length argv) -> open_ok (arg argv 5) = true ->
   forall enc, hve_init (config_of argv) = Some enc ->
     (exists fuel, main' fuel argv = Some 0) /\
     (forall fuel status w' t,
        main_loop fuel (input_of argv)
          (initial_world pipeline_start (input_of argv) enc) = Some (status, w', t) ->
        main' fuel argv = Some 0)).
Proof.
  unfold main, user_input_of, hardware_config_of, initial_world, process_user_input.
  destruct (Z.of_nat (length argv) <? 6) eqn:Hargc;
    [apply Z.ltb_lt in Hargc | apply Z.ltb_ge in Hargc]; cbn [fst snd filename].
  - repeat split; intros; lia.
  - change (0 <? 0) with false. cbv iota.
    split; [intros; lia|]. split; [|split].
    + intros _ ->. reflexivity.
    + intros _ -> ->. reflexivity.
    + intros _ -> enc ->. cbn [negb].
      match goal with |- _ /\ ?Q =>
        assert (Hz : Q) by (intros fuel status w' t ->; reflexivity)
      end.
      split; [|exact Hz].
      match type of Hz with forall fuel status w' t, main_loop fuel ?i ?w = _ -> _ =>
        destruct (main_loop_total always_quiescent i w) as (b & w' & t & [fuel Hr] & _)
      end.
      exists fuel. exact (Hz _ _ _ _ Hr).
Qed.

End ExitCodes.

(** ** The test doubles at work *)

Import Doubles.

Lemma fake_quiescent : forall e : fake, quiescent e.
Proof.
  intros [s k fl r]. induction r as [|p r IH].
  - eapply quiescent_now. reflexivity.
  - eapply quiescent_later; [reflexivity|exact IH].
Qed.

(** The scenario of the specification: thirty frames through an encoder that
    hands out one packet per two submissions and two more on flush. *)
Example lagging_scenario :
  summary (main_loop 40 (capture 1 30) (start lagging)) = Some (true, 30, 17, 1)%nat.
Proof. vm_compute. reflexivity. Qed.

(** The tenth submission is rejected: ten submissions, nine packets from the
    loop and one from the flush, which still runs; the result is [false]. *)
Example tenth_rejected_scenario :
  summary (main_loop 40 (capture 1 30) (start (rejects 10))) = Some (false, 10, 10, 1)%nat.
Proof. vm_compute. reflexivity. Qed.

(** The drain after the fourth submission ends in an encode failure. *)
Example fourth_chokes_scenario :
  summary (main_loop 40 (capture 1 30) (start (chokes 4))) = Some (false, 4, 5, 1)%nat.
Proof. vm_compute. reflexivity. Qed.

(** A flush that fails twice over does not change the result. *)
Example broken_flush_scenario :
  summary (main_loop 40 (capture 1 30) (start broken_flush)) = Some (true, 30, 31, 1)%nat.
Proof. vm_compute. reflexivity. Qed.

(** Three packets per submission: all six packets of two frames reach the
    file, two bytes each, in order. *)
Example three_per_frame_scenario :
  option_map (fun r => out_file (snd (fst r)))
    (main_loop 40 (capture 1 2) (start three_per_frame)) =
  Some (map tag [1; 1; 1; 2; 1; 3; 2; 1; 2; 2; 2; 3]%nat).
Proof. vm_compute. reflexivity. Qed.

Example thirty_frames : frames_of (capture 1 30) = 30.
Proof. reflexivity. Qed.

(** ** The claims on the test doubles *)

(** C1 on thirty frames through [broken_flush]. *)
Lemma success_iff_loop_completed_witness :
  (forall e : fake, quiescent e) /\
  exists b w' t,
    main_loop_returns (capture 1 30) (start broken_flush) b w' t /\
    exists pre rc ps failed,
      t = pre ++ [Submit None rc] ++ drain_events ps failed /\
      flushes pre = [] /\
      (b = true <->
       Z.of_nat (length (frame_submits pre)) = frames_of (capture 1 30) /\
       existsb (@is_failure fake _) pre = false).
Proof.
  split; [exact fake_quiescent|].
  exact (success_iff_loop_completed fake_quiescent (capture 1 30) (start broken_flush)).
Defined.

(** C2 on a run whose tenth submission is rejected. *)
Lemma flush_always_runs_witness :
  (forall e : fake, quiescent e) /\
  exists b w' t,
    main_loop_returns (capture 1 30) (start (rejects 10)) b w' t /\
    exists pre rc ps failed,
      t = pre ++ [Submit None rc] ++ drain_events ps failed /\
      flushes pre = [] /\
      out_file w' = (out_file (start (rejects 10)) ++ concat (writes pre)) ++ bytes_of ps.
Proof.
  split; [exact fake_quiescent|].
  exact (flush_always_runs fake_quiescent (capture 1 30) (start (rejects 10))).
Defined.

(** C3 on thirty frames through [lagging]. *)
Lemma packets_written_in_emission_order_witness :
  (forall e : fake, quiescent e) /\
  exists b w' t,
    main_loop_returns (capture 1 30) (start lagging) b w' t /\
    writes t = map packet_bytes (emitted t) /\
    out_file w' = out_file (start lagging) ++ concat (map packet_bytes (emitted t)).
Proof.
  split; [exact fake_quiescent|].
  exact (packets_written_in_emission_order fake_quiescent (capture 1 30) (start lagging)).
Defined.

(** C4 on [three_per_frame]: the first pass through the loop body writes the
    three packets of the first frame. *)
Lemma drain_is_exhaustive_witness :
  (forall e : fake, quiescent e) /\
  (exists b w' t,
     main_loop_returns (capture 1 2) (start three_per_frame) b w' t /\
     @drained_after_submit fake _ t) /\
  exists fuel f' w' rest,
    frame_loop fuel 2 0 warmed =
    Some (f', w',
          cycle_events (test_frame 10) [(pkt 1 1, 0); (pkt 1 2, 0); (pkt 1 3, 0)] 0 ++ rest) /\
    out_file w' = [] ++ map tag [1; 1; 1; 2; 1; 3]%nat ++ concat (writes rest).
Proof.
  split; [exact fake_quiescent|].
  destruct (drain_is_exhaustive fake_quiescent (capture 1 2) (start three_per_frame))
    as [Hrun Hcycle].
  split; [exact Hrun|].
  apply (Hcycle 2 0 warmed (test_frame 10) 11%nat
           {| behaviour := three_per_frame; sent := 1; flushed := false;
              ready := [pkt 1 1; pkt 1 2; pkt 1 3] |}
           [(pkt 1 1, 0); (pkt 1 2, 0); (pkt 1 3, 0)] 0
           {| behaviour := three_per_frame; sent := 1; flushed := false; ready := [] |}).
  - lia.
  - reflexivity.
  - reflexivity.
  - repeat (eapply yields_some; [reflexivity|]). eapply yields_none. reflexivity.
Defined.

(** C5 where the tenth of thirty submissions is rejected: ten submissions,
    twenty pulls, the flush right after the rejection, [false]. *)
Lemma rejected_submission_is_last_witness :
  (forall e : fake, quiescent e) /\
  exists b w' t,
    main_loop_returns (capture 1 30) (start (rejects 10)) b w' t /\
    nth_error (frame_submits t) 9 = Some (frame_of (test_frame 19), -1) /\
    length (frame_submits t) = 10%nat /\
    10 <= frames_of (capture 1 30) /\
    length (pulls t) = 20%nat /\
    (exists pre rc' ps failed,
       t = pre ++ [Submit (Some (frame_of (test_frame 19))) (-1); Submit None rc']
             ++ drain_events ps failed) /\
    b = false.
Proof.
  split; [exact fake_quiescent|].
  destruct (rejected_submission_is_last fake_quiescent (capture 1 30) (start (rejects 10)))
    as (b & w' & t & Hr & Hlast).
  destruct (main_loop 40 (capture 1 30) (start (rejects 10))) as [[[b0 w0] t0]|] eqn:E;
    [|vm_compute in E; discriminate].
  destruct (main_loop_returns_unique Hr (ex_intro _ 40%nat E)) as (-> & -> & ->).
  vm_compute in E. injection E as <- <- <-.
  eexists _, _, _. split; [exact Hr|]. split; [reflexivity|].
  apply (Hlast 9%nat); [reflexivity|discriminate].
Defined.

(** C6 on zero seconds at thirty frames per second. *)
Lemma zero_target_run_witness :
  (forall e : fake, quiescent e) /\
  frames_of (capture 0 30) = 0 /\
  exists b w' t,
    main_loop_returns (capture 0 30) (start lagging) b w' t /\
    (exists rc ps failed,
       t = map Pull (upcoming 10 0%nat) ++ [Submit None rc] ++ drain_events ps failed) /\
    frame_submits t = [] /\
    length (flushes t) = 1%nat /\
    b = true.
Proof.
  split; [exact fake_quiescent|]. split; [reflexivity|].
  exact (zero_target_run fake_quiescent (capture 0 30) (start lagging) eq_refl).
Defined.

(** C10 on minus one second at thirty frames per second. *)
Lemma negative_target_run_witness :
  (forall e : fake, quiescent e) /\
  frames_of (capture (-1) 30) < 0 /\
  exists b w' t,
    main_loop_returns (capture (-1) 30) (start lagging) b w' t /\
    (exists rc ps failed,
       t = map Pull (upcoming 10 0%nat) ++ [Submit None rc] ++ drain_events ps failed) /\
    frame_submits t = [] /\
    length (flushes t) = 1%nat /\
    b = false.
Proof.
  split; [exact fake_quiescent|]. split; [reflexivity|].
  exact (negative_target_run fake_quiescent (capture (-1) 30) (start lagging) eq_refl).
Defined.

(** C7 on one second at thirty frames per second: a target of thirty. *)
Lemma target_is_product_in_range_witness :
  (forall e : fake, quiescent e) /\
  in_int (1 * 30) /\
  frames_of (capture 1 30) = 1 * 30 /\
  exists b w' t,
    main_loop_returns (capture 1 30) (start lagging) b w' t /\
    Z.of_nat (length (frame_submits t)) <= Z.max 0 (1 * 30) /\
    (b = true -> Z.of_nat (length (frame_submits t)) = 1 * 30).
Proof.
  split; [exact fake_quiescent|].
  assert (Hin : in_int (1 * 30)) by (unfold in_int; lia).
  split; [exact Hin|].
  exact (target_is_product_in_range fake_quiescent (capture 1 30) (start lagging) Hin).
Defined.

(** C9 on the numbering camera: frames 0 to 9 are pulled and dropped. *)
Lemma warm_up_discards_ten_witness :
  (forall e : fake, quiescent e) /\
  (exists w1,
     warm_up 10 (start lagging) = Some (tt, w1, map Pull (map test_frame (seq 0 10))) /\
     length (map test_frame (seq 0 10)) = 10%nat /\
     he w1 = fresh lagging /\ out_file w1 = []) /\
  exists b w' t,
    main_loop_returns (capture 1 30) (start lagging) b w' t /\
    length (pulls t) = (10 + length (frame_submits t))%nat /\
    exists rest,
      t = map Pull (map test_frame (seq 0 10)) ++ rest /\
      submits_follow_pulls rest.
Proof.
  split; [exact fake_quiescent|].
  exact (warm_up_discards_ten fake_quiescent (capture 1 30) (start lagging)).
Defined.

(** C8 on four command lines; the last run fails at its tenth submission and
    the exit code is still 0. *)
Lemma exit_codes_witness :
  (forall e : fake, quiescent e) /\
  test_main (rejects 10) 40 ["capture"; "640"; "360"; "30"]%string = Some 1 /\
  test_main (rejects 10) 40 ["capture"; "640"; "360"; "30"; "1"; ""]%string = Some 2 /\
  test_main (rejects 10) 40 ["capture"; "0"; "360"; "30"; "1"; "out.h264"]%string = Some 3 /\
  summary (main_loop 40 (user_input_of test_atoi good_argv)
             (initial_world test_start (user_input_of test_atoi good_argv)
                (fresh (rejects 10)))) = Some (false, 10, 10, 1)%nat /\
  test_main (rejects 10) 40 good_argv = Some 0.
Proof.
  split; [exact fake_quiescent|].
  split; [|split; [|split; [|split]]].
  - apply (exit_codes test_atoi test_open test_start (test_init (rejects 10)) fake_quiescent
             ["capture"; "640"; "360"; "30"]%string). simpl. lia.
  - apply (exit_codes test_atoi test_open test_start (test_init (rejects 10)) fake_quiescent
             ["capture"; "640"; "360"; "30"; "1"; ""]%string); [simpl; lia|reflexivity].
  - apply (exit_codes test_atoi test_open test_start (test_init (rejects 10)) fake_quiescent
             ["capture"; "0"; "360"; "30"; "1"; "out.h264"]%string);
      [simpl; lia|reflexivity|reflexivity].
  - vm_compute. reflexivity.
  - destruct (main_loop 40 (user_input_of test_atoi good_argv)
                (initial_world test_start (user_input_of test_atoi good_argv)
                   (fresh (rejects 10)))) as [[[status w'] t]|] eqn:E;
      [|vm_compute in E; discriminate].
    refine (proj2 (proj2 (proj2 (proj2
              (exit_codes test_atoi test_open test_start (test_init (rejects 10))
                 fake_quiescent good_argv))) _ _ (fresh (rejects 10)) _) 40%nat status w' t E);
      [simpl; lia|reflexivity|reflexivity].
Defined.

(** ** Where the specification says too much *)

(** C5 as stated fails when the rejected submission is the last one the
    target allows: with a target of one frame and the first submission
    rejected, one submission is attempted, which is not fewer than one. *)
Lemma last_frame_rejected_not_strictly_early :
  ~ stops_strictly_early (capture 1 1) (start (rejects 1)).
Proof.
  intros Hc.
  destruct (main_loop 5 (capture 1 1) (start (rejects 1))) as [[[b w'] t]|] eqn:E;
    [|vm_compute in E; discriminate].
  pose proof (ex_intro (fun fuel => main_loop fuel _ _ = _) 5%nat E) as Hr.
  vm_compute in E. injection E as <- <- <-.
  specialize (Hc _ _ _ 0%nat _ _ Hr eq_refl).
  destruct Hc as [_ Hlt]; [discriminate|vm_compute; discriminate|].
  vm_compute in Hlt. discriminate.
Qed.

(** C7 as stated fails when the product leaves the [int] range: 65536
    seconds at 65536 frames per second give a target of 0, the run returns
    [true] after no submission at all, and 0 is not 65536 * 65536. *)
Lemma overflowing_product_not_exact :
  ~ cycles_are_exact_product (capture 65536 65536) (start three_per_frame).
Proof.
  intros Hc.
  destruct (main_loop 5 (capture 65536 65536) (start three_per_frame))
    as [[[b w'] t]|] eqn:E; [|vm_compute in E; discriminate].
  pose proof (ex_intro (fun fuel => main_loop fuel _ _ = _) 5%nat E) as Hr.
  vm_compute in E. injection E as <- <- <-.
  specialize (Hc _ _ Hr). vm_compute in Hc. discriminate.
Qed.

(** ** More on the conduct of a run *)

Section Conduct_facts.

Context {Src Enc : Type} `{FrameSource Src} `{Encoder Enc}.

Local Abbreviation W := (world Src Enc).
Local Abbreviation Run := (M Src Enc).

Create Rewrite HintDb trace.

Hint Rewrite pulls_app frame_submits_app flushes_app emitted_app writes_app
  pulls_warm frame_submits_warm flushes_warm emitted_warm writes_warm
  pulls_drain frame_submits_drain flushes_drain emitted_drain writes_drain
  frame_submits_loop flushes_loop : trace.

(** *** The camera *)

Lemma upcoming_add n m : forall s : Src,
  upcoming (n + m) s = upcoming n s ++ upcoming m (advance n s).
Proof.
  induction n; intros s; simpl; [reflexivity|].
  destruct (wait_for_frames s) as [c s']. simpl. now rewrite IHn.
Qed.

Lemma advance_add n m : forall s : Src,
  advance (n + m) s = advance m (advance n s).
Proof. induction n; intros s; simpl; auto. Qed.

Lemma tracked_ret A (a : A) : camera_tracked (ret a : Run A).
Proof. intros w a' w' t [= _ <- <-]. now split. Qed.

Lemma tracked_bind A B (c : Run A) (k : A -> Run B) :
  camera_tracked c -> (forall a, camera_tracked (k a)) -> camera_tracked (bind c k).
Proof.
  intros Hc Hk w b w2 t Hb.
  apply bind_inv in Hb as (a & w1 & t1 & t2 & E1 & E2 & ->).
  destruct (Hc _ _ _ _ E1) as [Hp1 Hs1]. destruct (Hk _ _ _ _ _ E2) as [Hp2 Hs2].
  rewrite pulls_app, length_app, upcoming_add, advance_add, <- Hs1. split.
  - now rewrite <- Hp1, <- Hp2.
  - exact Hs2.
Qed.

Lemma tracked_pull : camera_tracked (pull : Run _).
Proof.
  intros w a w' t. unfold pull.
  destruct (wait_for_frames (realsense w)) as [c s] eqn:E.
  intros [= <- <- <-]. simpl. now rewrite E.
Qed.

Lemma tracked_send frame : camera_tracked (send_frame frame : Run _).
Proof.
  intros w a w' t. unfold send_frame. destruct (hve_send_frame (he w) frame).
  intros [= _ <- <-]. destruct frame; now split.
Qed.

Lemma tracked_receive : camera_tracked (receive_packet : Run _).
Proof.
  intros w a w' t. unfold receive_packet.
  destruct (hve_receive_packet (he w)) as [[p fl] e].
  intros [= _ <- <-]. destruct p; now split.
Qed.

Lemma tracked_write b : camera_tracked (write b : Run _).
Proof. intros w a w' t [= _ <- <-]. now split. Qed.

Lemma tracked_warm_up n : camera_tracked (warm_up n : Run _).
Proof.
  induction n; simpl.
  - apply tracked_ret.
  - apply tracked_bind; auto using tracked_pull.
Qed.

Lemma tracked_drain fuel : camera_tracked (drain fuel : Run _).
Proof.
  induction fuel; simpl.
  - intros w a w' t. discriminate.
  - apply tracked_bind; [apply tracked_receive|].
    intros [[p|] fl]; simpl.
    + apply tracked_bind; auto using tracked_write.
    + apply tracked_ret.
Qed.

Lemma tracked_frame_loop fuel frames :
  forall f, camera_tracked (frame_loop fuel frames f : Run _).
Proof.
  induction fuel; intros f; simpl.
  - intros w a w' t. discriminate.
  - destruct (f <? frames); [|apply tracked_ret].
    apply tracked_bind; [apply tracked_pull|]. intros c.
    apply tracked_bind; [apply tracked_send|]. intros rc.
    destruct (negb (rc =? HVE_OK)); [apply tracked_ret|].
    apply tracked_bind; [apply tracked_drain|]. intros fl.
    destruct (negb (fl =? HVE_OK)); [apply tracked_ret|]. apply IHfuel.
Qed.

Lemma tracked_main_loop fuel input : camera_tracked (main_loop fuel input : Run _).
Proof.
  unfold main_loop.
  apply tracked_bind; [apply tracked_warm_up|]. intros _.
  apply tracked_bind; [apply tracked_frame_loop|]. intros f.
  apply tracked_bind; [apply tracked_send|]. intros _.
  apply tracked_bind; [apply tracked_drain|]. intros _.
  apply tracked_ret.
Qed.

Lemma submitted_are_pulled_loop cycles stop :
  map fst (frame_submits (loop_events cycles stop)) =
  map frame_of (pulls (loop_events cycles stop)).
Proof.
  unfold loop_events. rewrite frame_submits_app, pulls_app, !map_app. f_equal.
  - induction cycles as [|[c ps] cycles IH]; [reflexivity|].
    cbn [flat_map fst snd]. rewrite frame_submits_app, pulls_app, !map_app, IH.
    unfold cycle_events.
    now rewrite frame_submits_app, pulls_app, frame_submits_drain, pulls_drain.
  - destruct stop as [|c rc|c ps fl]; try reflexivity.
    unfold ending_events, cycle_events.
    now rewrite frame_submits_app, pulls_app, frame_submits_drain, pulls_drain.
Qed.

(** *** Packets are written at once *)

Lemma wao_nil : written_at_once [].
Proof. intros pre p fl post E. now destruct pre. Qed.

Lemma wao_cons e t :
  (forall p fl, e <> Poll (Some p) fl) ->
  written_at_once t -> written_at_once (e :: t).
Proof.
  intros He Ht pre p fl post E. destruct pre as [|e0 pre]; simpl in E.
  - injection E as -> _. now destruct (He p fl).
  - injection E as _ E. exact (Ht _ _ _ _ E).
Qed.

Lemma wao_poll p fl t :
  written_at_once t ->
  written_at_once (Poll (Some p) fl :: Append (packet_bytes p) :: t).
Proof.
  intros Ht pre p' fl' post E. destruct pre as [|e0 pre]; simpl in E.
  - injection E as <- _ <-. now exists t.
  - injection E as _ E. now apply (wao_cons (e := Append (packet_bytes p))) in E.
Qed.

Lemma wao_drain ps failed t :
  written_at_once t -> written_at_once (drain_events ps failed ++ t).
Proof.
  intros Ht. unfold drain_events. rewrite <- app_assoc.
  induction ps as [|[p fl] ps IH]; simpl.
  - now apply wao_cons.
  - now apply wao_poll.
Qed.

Lemma wao_cycle c ps failed t :
  written_at_once t -> written_at_once (cycle_events c ps failed ++ t).
Proof.
  intros Ht. unfold cycle_events. simpl.
  apply wao_cons; [discriminate|]. apply wao_cons; [discriminate|].
  now apply wao_drain.
Qed.

Lemma wao_run (s : Src) frames t b : run_shape s frames t b -> written_at_once t.
Proof.
  intros [cycles stop rc ps failed Hlen Hok].
  assert (Hf : written_at_once ([Submit None rc] ++ drain_events ps failed)).
  { simpl. apply wao_cons; [discriminate|].
    rewrite <- (app_nil_r (drain_events ps failed)). apply wao_drain, wao_nil. }
  assert (He : written_at_once
                 (ending_events stop ++ [Submit None rc] ++ drain_events ps failed)).
  { destruct stop as [|c rc0|c ps0 fl]; cbn [ending_events].
    - exact Hf.
    - cbn [app]. apply wao_cons; [discriminate|]. apply wao_cons; [discriminate|]. exact Hf.
    - now apply wao_cycle. }
  unfold loop_events. rewrite <- app_assoc.
  induction (upcoming 10 s) as [|c0 warm IHw]; simpl.
  - clear Hlen Hok. induction cycles as [|[c ps0] cycles IH]; simpl; [exact He|].
    rewrite <- app_assoc. now apply wao_cycle.
  - apply wao_cons; [discriminate|]. exact IHw.
Qed.

(** *** Encode failures *)

Lemma saf_after_flush outcome flush rc t :
  stops_at_encode_failure outcome flush (Submit None rc :: t).
Proof.
  intros pre fl post E _ Hpre. destruct pre as [|e0 pre]; simpl in E.
  - discriminate.
  - injection E as <- _. discriminate.
Qed.

Lemma saf_cons outcome flush e t :
  (forall fl, e = Poll None fl -> fl = HVE_OK) ->
  stops_at_encode_failure outcome flush t ->
  stops_at_encode_failure outcome flush (e :: t).
Proof.
  intros He Ht pre fl post E Hfl Hpre. destruct pre as [|e0 pre]; simpl in E.
  - injection E as -> _. now destruct Hfl, (He fl).
  - injection E as <- E. apply (Ht _ _ _ E Hfl).
    change (e :: pre) with ([e] ++ pre) in Hpre. rewrite flushes_app in Hpre.
    now apply app_eq_nil in Hpre.
Qed.

Lemma saf_fail (outcome : Prop) flush fl :
  outcome ->
  stops_at_encode_failure outcome flush flush ->
  stops_at_encode_failure outcome flush (Poll None fl :: flush).
Proof.
  intros Ho Hf pre fl' post E Hfl Hpre. destruct pre as [|e0 pre]; simpl in E.
  - injection E as _ <-. now split.
  - injection E as <- E. apply (Hf _ _ _ E Hfl).
    change (Poll None fl :: pre) with ([Poll None fl] ++ pre) in Hpre.
    rewrite flushes_app in Hpre. now apply app_eq_nil in Hpre.
Qed.

Lemma saf_polls outcome flush ps t :
  stops_at_encode_failure outcome flush t ->
  stops_at_encode_failure outcome flush
    (flat_map (fun pf => [Poll (Some (fst pf)) (snd pf); Append (packet_bytes (fst pf))]) ps
     ++ t).
Proof.
  intros Ht. induction ps as [|[p fl] ps IH]; simpl; [exact Ht|].
  apply saf_cons; [discriminate|]. now apply saf_cons.
Qed.

Lemma saf_cycle outcome flush c ps t :
  stops_at_encode_failure outcome flush t ->
  stops_at_encode_failure outcome flush (cycle_events c ps HVE_OK ++ t).
Proof.
  intros Ht. unfold cycle_events, drain_events. simpl.
  apply saf_cons; [discriminate|]. apply saf_cons; [discriminate|].
  rewrite <- app_assoc. apply saf_polls. simpl.
  apply saf_cons; [|exact Ht]. now intros fl [= <-].
Qed.

Lemma saf_run (s : Src) frames t b :
  run_shape s frames t b ->
  exists rc ps failed,
    stops_at_encode_failure (b = false) ([Submit None rc] ++ drain_events ps failed) t.
Proof.
  intros [cycles stop rc ps failed Hlen Hok]. exists rc, ps, failed.
  set (flush := [Submit None rc] ++ drain_events ps failed).
  set (outcome := (Z.of_nat (length cycles) =? frames) = false).
  assert (Hf : stops_at_encode_failure outcome flush flush) by apply saf_after_flush.
  assert (He : stops_at_encode_failure outcome flush (ending_events stop ++ flush)).
  { destruct stop as [|c rc0|c ps0 fl]; cbn [ending_events].
    - exact Hf.
    - cbn [app]. apply saf_cons; [discriminate|]. apply saf_cons; [discriminate|]. exact Hf.
    - unfold cycle_events, drain_events. simpl.
      apply saf_cons; [discriminate|]. apply saf_cons; [discriminate|].
      rewrite <- app_assoc. apply saf_polls. simpl. apply saf_fail; [|exact Hf].
      destruct Hok as [Hlt _]. apply Z.eqb_neq. lia. }
  clearbody outcome flush. unfold loop_events. rewrite <- app_assoc.
  induction (upcoming 10 s) as [|c0 warm IHw]; simpl.
  - clear Hlen Hok. induction cycles as [|[c ps0] cycles IH]; simpl; [exact He|].
    rewrite <- app_assoc. now apply saf_cycle.
  - apply saf_cons; [discriminate|]. exact IHw.
Qed.

(** *** A healthy encoder *)

Lemma drain_healthy fuel : forall (w w' : W) failed t,
  healthy ->
  drain fuel w = Some (failed, w', t) -> failed = HVE_OK.
Proof.
  induction fuel; intros w w' failed t Hh; simpl; [discriminate|].
  intros Hb. apply bind_inv in Hb as ([p fl] & w1 & t1 & t2 & E1 & E2 & ->).
  unfold receive_packet in E1.
  destruct (hve_receive_packet (he w)) as [[p0 fl0] e] eqn:Er.
  injection E1 as <- <- <- <-. destruct p0 as [p|]; simpl in E2.
  - apply bind_inv in E2 as ([] & w2 & t3 & t4 & _ & E4 & _).
    exact (IHfuel _ _ _ _ Hh E4).
  - injection E2 as <- _ _. exact (proj2 Hh _ _ _ Er).
Qed.

Lemma frame_loop_healthy fuel frames : forall f (w w' : W) f' t,
  healthy -> f <= frames ->
  frame_loop fuel frames f w = Some (f', w', t) -> f' = frames.
Proof.
  induction fuel; intros f w w' f' t Hh Hle; simpl; [discriminate|].
  destruct (f <? frames) eqn:Hlt.
  - apply Z.ltb_lt in Hlt. intros Hb.
    apply bind_inv in Hb as (c & w1 & t1 & t2 & _ & E2 & _).
    apply bind_inv in E2 as (rc & w2 & t3 & t4 & E3 & E4 & _).
    unfold send_frame in E3.
    destruct (hve_send_frame (he w1) (Some (frame_of c))) as [rc0 e] eqn:Es.
    injection E3 as <- _ _.
    pose proof (proj1 Hh (he w1) (frame_of c)) as Hrc. rewrite Es in Hrc.
    simpl in Hrc. subst rc0. rewrite Z.eqb_refl in E4. simpl in E4.
    apply bind_inv in E4 as (fl & w3 & t5 & t6 & E5 & E6 & _).
    apply (drain_healthy _ _ Hh) in E5. subst fl.
    rewrite Z.eqb_refl in E6. simpl in E6.
    apply (IHfuel _ _ _ _ _ Hh) in E6; [exact E6|lia].
  - apply Z.ltb_ge in Hlt. intros [= <- _ _]. lia.
Qed.

Section Conduct_claims.

Hypothesis always_quiescent : forall e : Enc, quiescent e.

(** X1: a [NULL] poll of the frame loop that reports an encode failure ends
    the loop: the end-of-stream submission and its drain follow at once, so
    nothing more is pulled or submitted, and the result is [false]. *)
Theorem encode_failure_ends_loop input (w : W) :
  exists b w' t,
    main_loop_returns input w b w' t /\
    forall pre failed post,
      t = pre ++ Poll None failed :: post ->
      failed <> HVE_OK -> flushes pre = [] ->
      (exists rc ps fl, post = [Submit None rc] ++ drain_events ps fl) /\ b = false.
Proof.
  destruct (main_loop_total always_quiescent input w) as (b & w' & t & Hr & Hs & _).
  exists b, w', t. split; [exact Hr|].
  destruct (saf_run Hs) as (rc & ps & fl & Hsaf).
  intros pre failed post E Hf Hpre.
  destruct (Hsaf _ _ _ E Hf Hpre) as [-> Hb]. split; [now exists rc, ps, fl|exact Hb].
Qed.

(** X2: the frames a run pulls are the next frames of the camera, which is
    left right after the last of them; the frames it submits are those
    pulled after the tenth, in the order they were pulled, stride and data
    unchanged. *)
Theorem frames_submitted_in_pull_order input (w : W) :
  exists b w' t,
    main_loop_returns input w b w' t /\
    pulls t = upcoming (length (pulls t)) (realsense w) /\
    realsense w' = advance (length (pulls t)) (realsense w) /\
    map fst (frame_submits t) = map frame_of (skipn 10 (pulls t)).
Proof.
  destruct (main_loop_total always_quiescent input w) as (b & w' & t & Hr & Hs & _).
  exists b, w', t. split; [exact Hr|].
  destruct Hr as [fuel E]. destruct (tracked_main_loop _ _ _ E) as [Hp Hc].
  split; [exact Hp|]. split; [exact Hc|]. clear Hp Hc E.
  destruct Hs as [cycles stop rc ps failed Hlen Hok].
  autorewrite with trace. rewrite !app_nil_r. cbn [app].
  rewrite skipn_app, upcoming_length, Nat.sub_diag.
  rewrite skipn_all2 by now rewrite upcoming_length.
  cbn [skipn app]. rewrite <- frame_submits_loop. apply submitted_are_pulled_loop.
Qed.

(** X3: the end-of-stream frame is submitted exactly once in a run, and no
    frame is submitted after it. *)
Theorem one_flush_and_it_is_last input (w : W) :
  exists b w' t,
    main_loop_returns input w b w' t /\
    length (flushes t) = 1%nat /\
    exists pre rc post,
      t = pre ++ [Submit None rc] ++ post /\
      flushes pre = [] /\ frame_submits post = [] /\ pulls post = [].
Proof.
  destruct (main_loop_total always_quiescent input w) as (b & w' & t & Hr & Hs & _).
  exists b, w', t. split; [exact Hr|].
  destruct Hs as [cycles stop rc ps failed Hlen Hok]. split.
  - now autorewrite with trace.
  - exists (map Pull (upcoming 10 (realsense w)) ++ loop_events cycles stop), rc,
      (drain_events ps failed).
    split; [now rewrite <- app_assoc|]. now autorewrite with trace.
Qed.

(** X4: every packet the encoder hands out is written to the file before
    the encoder is called again, in the frame loop and in the flush. *)
Theorem packets_written_at_once input (w : W) :
  exists b w' t,
    main_loop_returns input w b w' t /\
    forall pre p failed post,
      t = pre ++ Poll (Some p) failed :: post ->
      exists post', post = Append (packet_bytes p) :: post'.
Proof.
  destruct (main_loop_total always_quiescent input w) as (b & w' & t & Hr & Hs & _).
  exists b, w', t. split; [exact Hr|]. exact (wao_run Hs).
Qed.

(** X5: with an encoder that accepts every frame and never reports an
    encode failure, a run with a target that is not negative returns [true]
    after submitting exactly that many frames. *)
Theorem healthy_run_succeeds input (w : W) :
  healthy -> 0 <= frames_of input ->
  exists w' t,
    main_loop_returns input w true w' t /\
    Z.of_nat (length (frame_submits t)) = frames_of input.
Proof.
  intros Hh Hpos.
  destruct (main_loop_total always_quiescent input w) as (b & w' & t & Hr & Hs & _).
  assert (Hb : b = true).
  { destruct Hr as [fuel E]. unfold main_loop in E.
    apply bind_inv in E as ([] & w1 & t1 & t2 & _ & E2 & _).
    apply bind_inv in E2 as (f & w2 & t3 & t4 & E3 & E4 & _).
    eapply frame_loop_healthy in E3; [|exact Hh|exact Hpos]. subst f.
    apply bind_inv in E4 as (rc & w3 & t5 & t6 & _ & E6 & _).
    apply bind_inv in E6 as (fl & w4 & t7 & t8 & _ & E8 & _).
    injection E8 as <- _ _. apply Z.eqb_refl. }
  subst b. exists w', t. split; [exact Hr|].
  remember true as b eqn:Hb in Hs.
  destruct Hs as [cycles stop rc ps failed Hlen Hok].
  apply Z.eqb_eq in Hb.
  autorewrite with trace. rewrite !length_app, length_map. simpl length.
  destruct stop as [|c rc1|c ps1 fl]; simpl in *; lia.
Qed.

End Conduct_claims.

End Conduct_facts.

(** ** More on the command line *)

Section Command_line.

Context {Src Enc : Type} `{FrameSource Src} `{Encoder Enc}.

Variable atoi : string -> Z.
Variable open_ok : string -> bool.
Variable pipeline_start : Z -> Z -> Z -> Src.
Variable hve_init : hve_config -> option Enc.

Local Abbreviation main' := (main atoi open_ok pipeline_start hve_init).
Local Abbreviation input_of := (user_input_of atoi).
Local Abbreviation config_of := (hardware_config_of atoi).

Lemma arg_app argv extra i :
  (i < length argv)%nat -> arg (argv ++ extra) i = arg argv i.
Proof. intros Hi. unfold arg. now apply app_nth1. Qed.

(** X6: arguments after the fifth are ignored: they change neither what
    [process_user_input] returns and stores nor what [main] does. *)
Theorem surplus_arguments_ignored argv extra input config fuel :
  6 <= Z.of_nat (length argv) ->
  process_user_input atoi (argv ++ extra) input config =
  process_user_input atoi argv input config /\
  main' fuel (argv ++ extra) = main' fuel argv.
Proof.
  intros Hlen.
  assert (Hp : forall input config,
             process_user_input atoi (argv ++ extra) input config =
             process_user_input atoi argv input config).
  { intros i c. unfold process_user_input. rewrite length_app.
    replace (Z.of_nat (length argv + length extra) <? 6) with false
      by (symmetry; apply Z.ltb_ge; lia).
    replace (Z.of_nat (length argv) <? 6) with false
      by (symmetry; apply Z.ltb_ge; lia).
    rewrite !arg_app by lia. reflexivity. }
  split; [apply Hp|]. unfold main. now rewrite Hp.
Qed.

(** X7: [process_user_input] returns a negative value exactly when there
    are fewer than five arguments, and then leaves both structures as they
    were; otherwise the encoder is configured with the width, height and
    framerate the camera is started with, and with pixel format yuyv422. *)
Theorem parsed_configuration argv input config :
  let '(rc, input', config') := process_user_input atoi argv input config in
  (rc < 0 <-> Z.of_nat (length argv) < 6) /\
  (rc < 0 -> input' = input /\ config' = config) /\
  (0 <= rc ->
   init_realsense pipeline_start input' =
   pipeline_start (cfg_width config') (cfg_height config') (cfg_framerate config') /\
   pixel_format config' = "yuyv422"%string /\
   seconds input' = atoi (arg argv 4) /\ filename input' = arg argv 5).
Proof.
  unfold process_user_input.
  destruct (Z.of_nat (length argv) <? 6) eqn:Hargc;
    [apply Z.ltb_lt in Hargc | apply Z.ltb_ge in Hargc].
  - repeat split; auto; lia.
  - repeat split; auto; lia.
Qed.

(** X8: the exit code of [main] tells how far it got: 1 only for too few
    arguments, 2 only when the output file did not open, 3 only when
    [hve_init] returned [NULL], and 0 only after [main_loop] has run to its
    end. *)
Theorem exit_code_cause fuel argv code :
  main' fuel argv = Some code ->
  (code = 1 /\ Z.of_nat (length argv) < 6) \/
  (code = 2 /\ 6 <= Z.of_nat (length argv) /\ open_ok (arg argv 5) = false) \/
  (code = 3 /\ 6 <= Z.of_nat (length argv) /\ open_ok (arg argv 5) = true /\
   hve_init (config_of argv) = None) \/
  (code = 0 /\ 6 <= Z.of_nat (length argv) /\ open_ok (arg argv 5) = true /\
   exists enc status w' t,
     hve_init (config_of argv) = Some enc /\
     main_loop fuel (input_of argv)
       (initial_world pipeline_start (input_of argv) enc) = Some (status, w', t)).
Proof.
  unfold main, user_input_of, hardware_config_of, initial_world, process_user_input.
  destruct (Z.of_nat (length argv) <? 6) eqn:Hargc;
    [apply Z.ltb_lt in Hargc | apply Z.ltb_ge in Hargc]; cbn [fst snd filename].
  - intros [= <-]. left. now split.
  - change (0 <? 0) with false. cbv iota.
    destruct (open_ok (arg argv 5)); cbn [negb].
    2:{ intros [= <-]. right. left. now repeat split. }
    destruct (hve_init _) as [enc|] eqn:Hinit.
    2:{ intros [= <-]. right. right. left. now repeat split. }
    destruct (main_loop _ _ _) as [[[status w'] t]|] eqn:Hrun; [|discriminate].
    intros [= <-]. right. right. right. repeat split; auto.
    now exists enc, status, w', t.
Qed.

End Command_line.

(** ** The further properties on the test doubles *)

Import Steady.

Lemma steady_quiescent : forall e : steady, quiescent e.
Proof.
  intros [k r]. induction r as [|p r IH].
  - eapply quiescent_now. reflexivity.
  - eapply quiescent_later; [reflexivity|exact IH].
Qed.

Lemma steady_healthy : @healthy steady _.
Proof.
  split.
  - intros e frame. reflexivity.
  - intros [k [|p r]] failed e'; simpl; unfold steady_receive; simpl; congruence.
Qed.

(** X1 on a run whose fourth drain ends in an encode failure. *)
Lemma encode_failure_ends_loop_witness :
  (forall e : fake, quiescent e) /\
  exists b w' t,
    main_loop_returns (capture 1 30) (start (chokes 4)) b w' t /\
    forall pre failed post,
      t = pre ++ Poll None failed :: post ->
      failed <> 0 -> flushes pre = [] ->
      (exists rc ps fl, post = [Submit None rc] ++ drain_events ps fl) /\ b = false.
Proof.
  split; [exact fake_quiescent|].
  exact (encode_failure_ends_loop fake_quiescent (capture 1 30) (start (chokes 4))).
Defined.

(** X2 on three frames from the numbering camera: frames 10, 11 and 12 are
    submitted, in that order. *)
Lemma frames_submitted_in_pull_order_witness :
  (forall e : steady, quiescent e) /\
  exists b w' t,
    main_loop_returns (capture 1 3) steady_start b w' t /\
    pulls t = map test_frame (seq 0 13) /\
    realsense w' = 13%nat /\
    map fst (frame_submits t) = map frame_of (map test_frame [10; 11; 12]%nat).
Proof.
  split; [exact steady_quiescent|].
  destruct (frames_submitted_in_pull_order steady_quiescent (capture 1 3) steady_start)
    as (b & w' & t & Hr & Hp & Hc & Hs).
  destruct (main_loop 10 (capture 1 3) steady_start) as [[[b0 w0] t0]|] eqn:E;
    [|vm_compute in E; discriminate].
  destruct (main_loop_returns_unique Hr (ex_intro _ 10%nat E)) as (-> & -> & ->).
  vm_compute in E. injection E as <- <- <-.
  eexists _, _, _. split; [exact Hr|]. split; [exact Hp|]. split; [exact Hc|exact Hs].
Defined.

(** X3 on a run whose tenth submission is rejected. *)
Lemma one_flush_and_it_is_last_witness :
  (forall e : fake, quiescent e) /\
  exists b w' t,
    main_loop_returns (capture 1 30) (start (rejects 10)) b w' t /\
    length (flushes t) = 1%nat /\
    exists pre rc post,
      t = pre ++ [Submit None rc] ++ post /\
      flushes pre = [] /\ frame_submits post = [] /\ pulls post = [].
Proof.
  split; [exact fake_quiescent|].
  exact (one_flush_and_it_is_last fake_quiescent (capture 1 30) (start (rejects 10))).
Defined.

(** X4 on two frames through [three_per_frame]. *)
Lemma packets_written_at_once_witness :
  (forall e : fake, quiescent e) /\
  exists b w' t,
    main_loop_returns (capture 1 2) (start three_per_frame) b w' t /\
    forall pre p failed post,
      t = pre ++ Poll (Some p) failed :: post ->
      exists post', post = Append (packet_bytes p) :: post'.
Proof.
  split; [exact fake_quiescent|].
  exact (packets_written_at_once fake_quiescent (capture 1 2) (start three_per_frame)).
Defined.

(** X5 on thirty frames through the encoder without faults. *)
Lemma healthy_run_succeeds_witness :
  (forall e : steady, quiescent e) /\
  @healthy steady _ /\
  0 <= frames_of (capture 1 30) /\
  exists w' t,
    main_loop_returns (capture 1 30) steady_start true w' t /\
    Z.of_nat (length (frame_submits t)) = frames_of (capture 1 30).
Proof.
  split; [exact steady_quiescent|]. split; [exact steady_healthy|].
  assert (Hpos : 0 <= frames_of (capture 1 30)) by (vm_compute; discriminate).
  split; [exact Hpos|].
  exact (healthy_run_succeeds steady_quiescent (capture 1 30) steady_start
           steady_healthy Hpos).
Defined.

(** X6 on a command line with two arguments too many. *)
Lemma surplus_arguments_ignored_witness :
  6 <= Z.of_nat (length good_argv) /\
  process_user_input test_atoi (good_argv ++ ["--fast"; "7"]%string) zero_input zero_config =
  process_user_input test_atoi good_argv zero_input zero_config /\
  test_main (rejects 10) 40 (good_argv ++ ["--fast"; "7"]%string) =
  test_main (rejects 10) 40 good_argv.
Proof.
  assert (Hlen : 6 <= Z.of_nat (length good_argv)) by (simpl; lia).
  split; [exact Hlen|].
  exact (surplus_arguments_ignored test_atoi test_open test_start (test_init (rejects 10))
           good_argv ["--fast"; "7"]%string zero_input zero_config 40 Hlen).
Defined.

(** X8 on a run that fails at its tenth submission: the exit code 0 says
    that the encoder was initialised and [main_loop] returned. *)
Lemma exit_code_cause_witness :
  test_main (rejects 10) 40 good_argv = Some 0 /\
  exists enc status w' t,
    test_init (rejects 10) (hardware_config_of test_atoi good_argv) = Some enc /\
    main_loop 40 (user_input_of test_atoi good_argv)
      (initial_world test_start (user_input_of test_atoi good_argv) enc) =
    Some (status, w', t).
Proof.
  assert (Hmain : test_main (rejects 10) 40 good_argv = Some 0)
    by (vm_compute; reflexivity).
  split; [exact Hmain|].
  destruct (exit_code_cause test_atoi test_open test_start (test_init (rejects 10))
              40 good_argv Hmain)
    as [[Hc _]|[[Hc _]|[[Hc _]|(_ & _ & _ & Hrun)]]];
    [discriminate Hc|discriminate Hc|discriminate Hc|exact Hrun].
Defined.
